(** * CritiCloudFunctions: the seeding and user-update HTTP functions

    A shallow embedding of [functions/index.js] and the properties of its
    two handlers, [seedData] and [updateUser].

    JavaScript values are an inductive type, numbers are the rationals
    they denote together with NaN and the two infinities, the fake-data
    generator is a state-passing oracle, and the Firestore client is a
    record holding the stored documents and the list of calls received. *)

From Stdlib Require Import ZArith QArith Qround String Ascii List Lia Bool.
From stdpp Require Import base gmap strings list pretty.
Import ListNotations.

Local Open Scope string_scope.
Local Open Scope list_scope.
Set Warnings "-register-all".

(** ** JavaScript numbers

    Every finite double is a rational number; [Math.min] and [<] are exact
    on doubles, and a loop counter that starts at [0] and stays below a
    cap of at most [500] is an exact integer.  The only rounding steps of
    the program are the conversions between strings and numbers, which
    are kept abstract (section variables below). *)

Inductive jsnum : Type :=
| NaN
| PosInf
| NegInf
| Finite (q : Q).

Definition of_Z (z : Z) : jsnum := Finite (inject_Z z).
Definition of_nat (n : nat) : jsnum := of_Z (Z.of_nat n).

(** [a < b] on numbers; any comparison with NaN is false. *)
Definition num_ltb (a b : jsnum) : bool :=
  match a, b with
  | NaN, _ | _, NaN => false
  | _, NegInf => false
  | PosInf, _ => false
  | NegInf, _ => true
  | Finite _, PosInf => true
  | Finite p, Finite q => negb (Qle_bool q p)
  end.

(** [Math.min(a, b)]: NaN if either argument is NaN, else the smaller. *)
Definition Math_min (a b : jsnum) : jsnum :=
  match a, b with
  | NaN, _ | _, NaN => NaN
  | NegInf, _ | _, NegInf => NegInf
  | PosInf, x => x
  | x, PosInf => x
  | Finite p, Finite q => if Qle_bool p q then Finite p else Finite q
  end.

(** ** JavaScript values carried by requests and documents *)

Inductive JsVal : Type :=
| JUndefined
| JNull
| JBool (b : bool)
| JNum (n : jsnum)
| JStr (s : string)
| JArr (elems : list JsVal)
| JObj (fields : gmap string JsVal).

(** Decimal rendering of an array index or an integer id. *)
Definition nat_to_string (n : nat) : string := pretty n.
Definition int_to_string (z : Z) : string := pretty z.

(** The characters of a string, as one-character strings. *)
Definition chars (s : string) : list JsVal :=
  map (fun c => JStr (String c EmptyString)) (list_ascii_of_string s).

(** [v.k] for the data properties of [v].  Numbers and booleans answer
    [undefined] for a name they do not carry; arrays and strings answer
    their length, and their elements under decimal indices. *)
Fixpoint index_get (k : string) (i : nat) (l : list JsVal) : JsVal :=
  match l with
  | [] => JUndefined
  | x :: rest => if String.eqb k (nat_to_string i) then x else index_get k (S i) rest
  end.

Definition get_prop (v : JsVal) (k : string) : JsVal :=
  match v with
  | JObj fs => default JUndefined (fs !! k)
  | JArr l =>
      if String.eqb k "length" then JNum (of_nat (length l)) else index_get k 0 l
  | JStr s =>
      if String.eqb k "length" then JNum (of_nat (String.length s))
      else index_get k 0 (chars s)
  | _ => JUndefined
  end.

(** ToBoolean. *)
Definition truthy (v : JsVal) : bool :=
  match v with
  | JUndefined | JNull => false
  | JBool b => b
  | JNum NaN => false
  | JNum (Finite q) => negb (Qeq_bool q 0)
  | JNum _ => true
  | JStr s => negb (String.eqb s "")
  | JArr _ | JObj _ => true
  end.

(** [a || b] and [a && b] return one of their operands. *)
Definition js_or (a b : JsVal) : JsVal := if truthy a then a else b.
Definition js_and (a b : JsVal) : JsVal := if truthy a then b else a.

(** [typeof v === "object"]: objects, arrays and [null]. *)
Definition typeof_object (v : JsVal) : bool :=
  match v with
  | JNull | JArr _ | JObj _ => true
  | _ => false
  end.

(** [v !== s] for a string [s]: strict inequality never converts. *)
Definition strict_neq_str (v : JsVal) (s : string) : bool :=
  match v with
  | JStr t => negb (String.eqb t s)
  | _ => true
  end.

(** Own enumerable properties copied by an object spread [{...v}]. *)
Fixpoint indexed (i : nat) (l : list JsVal) : list (string * JsVal) :=
  match l with
  | [] => []
  | x :: rest => (nat_to_string i, x) :: indexed (S i) rest
  end.

Definition spread (v : JsVal) : gmap string JsVal :=
  match v with
  | JObj fs => fs
  | JArr l => list_to_map (indexed 0 l)
  | JStr s => list_to_map (indexed 0 (chars s))
  | _ => ∅
  end.

(** [undefined] occurs in [v], at the top or inside an array or an
    object. *)
Fixpoint has_undefined (v : JsVal) : bool :=
  match v with
  | JUndefined => true
  | JArr l => existsb has_undefined l
  | JObj fs => map_fold (fun _ x b => has_undefined x || b) false fs
  | _ => false
  end.

(** ** Strings *)

Fixpoint string_filter (p : ascii -> bool) (s : string) : string :=
  match s with
  | EmptyString => EmptyString
  | String c rest =>
      if p c then String c (string_filter p rest) else string_filter p rest
  end.

Fixpoint string_map (f : ascii -> ascii) (s : string) : string :=
  match s with
  | EmptyString => EmptyString
  | String c rest => String (f c) (string_map f rest)
  end.

Fixpoint string_forallb (p : ascii -> bool) (s : string) : bool :=
  match s with
  | EmptyString => true
  | String c rest => p c && string_forallb p rest
  end.

Definition code (c : ascii) : nat := nat_of_ascii c.
Definition in_range (lo hi : nat) (c : ascii) : bool :=
  (lo <=? code c)%nat && (code c <=? hi)%nat.

Definition is_upper (c : ascii) : bool := in_range 65 90 c.
Definition is_lower (c : ascii) : bool := in_range 97 122 c.
Definition is_digit (c : ascii) : bool := in_range 48 57 c.
Definition is_underscore (c : ascii) : bool := (code c =? 95)%nat.
Definition is_ascii (c : ascii) : bool := (code c <? 128)%nat.

(** The character class [[a-zA-Z0-9_]]. *)
Definition is_word_char (c : ascii) : bool :=
  is_lower c || is_upper c || is_digit c || is_underscore c.

(** The class of a lowercased user name, [[a-z0-9_]]. *)
Definition is_lower_word_char (c : ascii) : bool :=
  is_lower c || is_digit c || is_underscore c.

(** [s.replace(/[^a-zA-Z0-9_]/g, "")]: drop every character outside the class. *)
Definition strip_non_word (s : string) : string := string_filter is_word_char s.

(** Lowercase of one ASCII character. *)
Definition ascii_lower (c : ascii) : ascii :=
  if is_upper c then ascii_of_nat (code c + 32) else c.

(** ** Entities and write payloads *)

(** A field of a write payload: a plain value, or the sentinel
    [admin.firestore.FieldValue.serverTimestamp()]. *)
Inductive FieldVal : Type :=
| FPlain (v : JsVal)
| FServerTimestamp.

(** A field of a stored document: the sentinel has been replaced by the
    server's time. *)
Inductive StoredVal : Type :=
| SPlain (v : JsVal)
| STimestamp (t : nat).

Abbreviation Payload := (gmap string FieldVal).
Abbreviation Doc := (gmap string StoredVal).

Record User : Type := mkUser {
  u_id : string;
  u_username : string;
  u_email : string;
  u_name : string;
  u_bio : string;
  u_profileImageUrl : string;
  u_avatarUrl : string;
  u_usernameLowercase : string;
  u_nameLowercase : string;
  u_followers : Z;
  u_followersCount : Z;
  u_following : Z;
  u_followingCount : Z;
  u_createdAt : FieldVal;
  u_updatedAt : FieldVal
}.

Record Artist : Type := mkArtist {
  ar_id : Z;
  ar_name : string;
  ar_profileImageUrl : string;
  ar_genre : string;
  ar_createdAt : FieldVal
}.

(** The snapshot of its artist embedded in an album. *)
Record ArtistSnapshot : Type := mkSnapshot {
  sn_id : Z;
  sn_name : string;
  sn_profileImageUrl : string;
  sn_genre : string
}.

Record Album : Type := mkAlbum {
  al_id : Z;
  al_title : string;
  al_year : string;
  al_coverUrl : string;
  al_artist : ArtistSnapshot;
  al_createdAt : FieldVal
}.

Record Review : Type := mkReview {
  rv_content : string;
  rv_score : Z;
  rv_isLowScore : bool;
  rv_albumId : Z;
  rv_userId : string;
  rv_firebaseUserId : string;
  rv_likesCount : Z;
  rv_createdAt : string;
  rv_updatedAt : string
}.

Definition JInt (z : Z) : JsVal := JNum (of_Z z).

(** ** The storage gateway

    A document is addressed by its collection and its key; a key is either
    supplied by the caller ([inl]) or auto-assigned by the client ([inr]). *)

Abbreviation DocKey := (string + nat)%type.

Record DocRef : Type := mkRef {
  ref_collection : string;
  ref_key : DocKey
}.

(** One [batch.set(ref, data, { merge: true })]. *)
Record WriteOp : Type := mkOp {
  op_ref : DocRef;
  op_data : Payload
}.

(** The calls that change documents, as the gateway receives them. *)
Inductive GatewayCall : Type :=
| BatchCommit (ops : list WriteOp)
| DocUpdate (r : DocRef) (data : Payload).

Record Firestore : Type := mkFirestore {
  fs_docs : gmap (string * DocKey) Doc;
  fs_calls : list GatewayCall;
  fs_clock : nat;
  fs_nextAuto : nat
}.

Definition ref_path (r : DocRef) : string * DocKey := (ref_collection r, ref_key r).

(** *** What the client accepts

    The client is created with its default settings (lines 6 to 9), so
    it refuses to serialize [undefined], wherever it occurs in the data
    of a [set] or of an [update]. *)
Definition storable (f : FieldVal) : bool :=
  match f with
  | FPlain v => negb (has_undefined v)
  | FServerTimestamp => true
  end.

Definition payload_storable (data : Payload) : bool :=
  forallb (fun kv => storable (snd kv)) (map_to_list data).

(** What the server stores for a field it accepts: the timestamp
    sentinel is replaced by the server's time [t]. *)
Definition resolve (t : nat) (f : FieldVal) : StoredVal :=
  match f with
  | FPlain v => SPlain v
  | FServerTimestamp => STimestamp t
  end.

(** Modelled from the spec: a merge write of the database client
    "updates only the specified fields, leaving any other existing fields
    untouched". *)
Definition merge_fields (t : nat) (data : Payload) (d : Doc) : Doc :=
  (resolve t <$> data) ∪ d.

(** Modelled from the spec: [set(ref, data, { merge: true })] of the
    database client, which creates the document when there is none. *)
Definition apply_set (t : nat) (docs : gmap (string * DocKey) Doc) (op : WriteOp)
  : gmap (string * DocKey) Doc :=
  let old := default ∅ (docs !! ref_path (op_ref op)) in
  <[ref_path (op_ref op) := merge_fields t (op_data op) old]> docs.

(** Modelled from the spec: [batch.commit()] of the database client.  The
    writes of the batch are applied in order as merge writes, at one
    server time, and the commit is recorded among the calls received. *)
Definition commit (batch : list WriteOp) (fs : Firestore) : Firestore :=
  {| fs_docs := fold_left (apply_set (fs_clock fs)) batch (fs_docs fs);
     fs_calls := fs_calls fs ++ [BatchCommit batch];
     fs_clock := S (fs_clock fs);
     fs_nextAuto := fs_nextAuto fs |}.

(** *** Field paths

    The keys of the object given to [update] are field paths: a dot
    separates the names of nested fields.  The client refuses a key that
    is empty, that has an empty name between dots, or that holds one of
    the characters [*~/[]], and it refuses two keys one of which is the
    beginning of the other. *)

(** [k.split(".")] *)
Fixpoint split_dots (k : string) : list string :=
  match k with
  | EmptyString => [EmptyString]
  | String c rest =>
      if Ascii.eqb c "."
      then EmptyString :: split_dots rest
      else match split_dots rest with
           | [] => [String c EmptyString]
           | name :: names => String c name :: names
           end
  end.

Definition path_char (c : ascii) : bool :=
  negb (existsb (Ascii.eqb c) ["*"; "~"; "/"; "["; "]"]%char).

Definition field_path (k : string) : option (list string) :=
  let names := split_dots k in
  if string_forallb path_char k && forallb (fun n => negb (String.eqb n "")) names
  then Some names
  else None.

Fixpoint is_prefix (p q : list string) : bool :=
  match p, q with
  | [], _ => true
  | _ :: _, [] => false
  | a :: p', b :: q' => String.eqb a b && is_prefix p' q'
  end.

(** Some path of the list begins another. *)
Fixpoint conflicting (ps : list (list string)) : bool :=
  match ps with
  | [] => false
  | p :: rest =>
      existsb (fun q => is_prefix p q || is_prefix q p) rest || conflicting rest
  end.

(** Writing [v] at the path [p] of an object: the objects on the way
    are kept and extended, anything else on the way is replaced by a new
    object. *)
Fixpoint set_in (p : list string) (v : JsVal) (o : gmap string JsVal)
  : gmap string JsVal :=
  match p with
  | [] => o
  | k :: p' =>
      match p' with
      | [] => <[k := v]> o
      | _ =>
          let inner := match o !! k with
                       | Some (JObj m) => m
                       | _ => ∅
                       end in
          <[k := JObj (set_in p' v inner)]> o
      end
  end.

(** A stored value as it sits inside an object.  The handlers put the
    timestamp sentinel at the top of a document only; below the top the
    model keeps the time as a number. *)
Definition nested (x : StoredVal) : JsVal :=
  match x with
  | SPlain v => v
  | STimestamp t => JNum (of_nat t)
  end.

Definition set_path (p : list string) (x : StoredVal) (d : Doc) : Doc :=
  match p with
  | [] => d
  | k :: p' =>
      match p' with
      | [] => <[k := x]> d
      | _ =>
          let inner := match d !! k with
                       | Some (SPlain (JObj m)) => m
                       | _ => ∅
                       end in
          <[k := SPlain (JObj (set_in p' (nested x) inner))]> d
      end
  end.

(** The keys of an update, as the paths they denote; [None] when the
    client refuses one of them. *)
Definition update_paths (data : Payload) : option (list (list string)) :=
  mapM (fun kv => field_path (fst kv)) (map_to_list data).

(** The document after an update the client and the server accept. *)
Definition apply_update (t : nat) (data : Payload) (d : Doc) : Doc :=
  map_fold
    (fun k f acc =>
       match field_path k with
       | Some p => set_path p (resolve t f) acc
       | None => acc
       end)
    d data.

(** ** Outcomes and the handler monad *)

Inductive Outcome (A : Type) : Type :=
| Ok (a : A)
| Throw (err : string)
| OutOfFuel.
Arguments Ok {A} a.
Arguments Throw {A} err.
Arguments OutOfFuel {A}.

(** The three shapes of JSON the handlers answer with. *)
Inductive ResponseBody : Type :=
| ErrorBody (error : string)
    (* { ok: false, error } *)
| SeedBody (message : string) (users artists albums reviews : nat)
    (* { ok: true, message, counts: { users, artists, albums, reviews } } *)
| UserBody (user : option Doc).
    (* { ok: true, user } *)

Record Response : Type := mkResponse {
  status : nat;
  body : ResponseBody
}.

Definition body_ok (b : ResponseBody) : bool :=
  match b with
  | ErrorBody _ => false
  | _ => true
  end.

Record Request : Type := mkRequest {
  req_query : gmap string JsVal;
  req_headers : gmap string string;
  req_body : JsVal
}.

(** [req.get(name)]: header names are stored in lower case. *)
Definition req_get (req : Request) (name : string) : JsVal :=
  match req_headers req !! name with
  | Some s => JStr s
  | None => JUndefined
  end.

(** [v?.k] *)
Definition opt_chain (v : JsVal) (k : string) : JsVal :=
  match v with
  | JUndefined | JNull => JUndefined
  | _ => get_prop v k
  end.

(** The kinds of string the fake-data generator is asked for. *)
Inductive StrGen : Type :=
| Uuid | UserName | FullName | Avatar | Email | Sentence
| MusicArtist | Genre | SongName | Paragraph.

Definition BATCH_SIZE : nat := 500.

(** The two HTTP endpoints. *)
Inductive Endpoint : Type :=
| SeedData
| UpdateUser.

(** The world a handler runs in: the state read by the generators
    (pseudo-random generator, clock) and the database. *)
Record World (G : Type) : Type := mkWorld {
  w_rng : G;
  w_db : Firestore
}.
Arguments mkWorld {G} _ _.
Arguments w_rng {G} _.
Arguments w_db {G} _.

(** The field [k] of the user document stored under [id], if any. *)
Definition stored_field {G} (w : World G) (id k : string) : option StoredVal :=
  fs_docs (w_db w) !! ("users", inl id) ≫= (fun d : Doc => d !! k).

(** Number of times the test [i < n] of a counting loop succeeds for
    [i = 0, 1, 2, ...] before it first fails ([n] not [+Infinity]). *)
Definition iterations (n : jsnum) : nat :=
  match n with
  | Finite q => Z.to_nat (Qceiling q)
  | _ => 0%nat
  end.


(** The first truthy value of a list, else a default: the value of a
    chain [a || b || ... || dflt]. *)
Fixpoint first_truthy (l : list JsVal) (dflt : JsVal) : JsVal :=
  match l with
  | [] => dflt
  | v :: rest => if truthy v then v else first_truthy rest dflt
  end.

(** ** The server-held secret (lines 12 to 15)

    [(functions.config && functions.config().seed &&
      functions.config().seed.key) || process.env.SEED_KEY || "dev-seed-key"].
    [config] is [None] when [functions.config] is not defined and otherwise
    the object the call returns; [env] is [process.env.SEED_KEY]. *)
Definition config_key (config : option (gmap string JsVal)) : JsVal :=
  match config with
  | None => JUndefined
  | Some cfg =>
      let seed := default JUndefined (cfg !! "seed") in
      js_and seed (get_prop seed "key")
  end.

Definition resolve_seed_key (config : option (gmap string JsVal)) (env : JsVal) : JsVal :=
  js_or (js_or (config_key config) env) (JStr "dev-seed-key").

(** The documents a list of writes addresses. *)
Definition paths (ops : list WriteOp) : list (string * DocKey) :=
  map (fun op => ref_path (op_ref op)) ops.


(** A document keeps every field of another; a store keeps every
    document of another, each with all its fields. *)
Definition doc_extends (d d' : Doc) : Prop :=
  forall k, is_Some (d !! k) -> is_Some (d' !! k).

Definition store_extends (m m' : gmap (string * DocKey) Doc) : Prop :=
  forall p d, m !! p = Some d -> exists d', m' !! p = Some d' /\ doc_extends d d'.

(** The four collections the seed handler writes to. *)
Definition seed_collections : list string := ["users"; "artists"; "albums"; "reviews"].

(** A key that names one field at the top of a document: a field path
    of a single name. *)
Definition plain_key (k : string) : bool :=
  match field_path k with
  | Some [_] => true
  | _ => false
  end.

(** A string, a number, a boolean or [null]. *)
Definition scalar (v : JsVal) : bool :=
  match v with
  | JNull | JBool _ | JNum _ | JStr _ => true
  | _ => false
  end.

(** Updates that set fields at the top of a document to scalars. *)
Definition flat_updates (updates : JsVal) : bool :=
  forallb (fun kv => plain_key (fst kv) && scalar (snd kv)) (map_to_list (spread updates)).


(** ** The claims' own reading of counts and keys

    These two definitions follow the specification's words, not the
    code; they are what the code is compared with. *)


(** "the key query parameter if non-empty, otherwise the x-seed-key
    header if non-empty, otherwise the key body field, otherwise the
    empty string" *)
Definition spec_key (req : Request) : JsVal :=
  first_truthy
    [ default JUndefined (req_query req !! "key");
      req_get req "x-seed-key";
      opt_chain (req_body req) "key" ]
    (JStr "").

(** ** A concrete runtime for worked examples

    The generator state is a counter; the conversions agree with
    JavaScript on the decimal integers, which is all the examples use. *)
Module Sample.

Definition G : Type := nat.

Definition toLowerCase (s : string) : string := string_map ascii_lower s.

Fixpoint digits_value (s : string) (acc : Z) : option Z :=
  match s with
  | EmptyString => Some acc
  | String c rest =>
      if is_digit c
      then digits_value rest (10 * acc + (Z.of_nat (code c) - 48))%Z
      else None
  end.

Definition StringToNumber (s : string) : jsnum :=
  match s with
  | EmptyString => of_Z 0
  | String "-" (String c rest) =>
      match digits_value (String c rest) 0 with
      | Some z => of_Z (- z)
      | None => NaN
      end
  | _ =>
      match digits_value s 0 with
      | Some z => of_Z z
      | None => NaN
      end
  end.

Definition NumberToString (n : jsnum) : string :=
  match n with
  | NaN => "NaN"
  | PosInf => "Infinity"
  | NegInf => "-Infinity"
  | Finite q => int_to_string (Qfloor q)
  end.

Definition label (k : StrGen) : string :=
  match k with
  | Uuid => "uuid-"
  | UserName => "Ada.Lovelace-"
  | FullName => "Ada Lovelace "
  | Avatar => "https://avatars.example/"
  | Email => "ada@example.org#"
  | Sentence => "Lorem ipsum "
  | MusicArtist => "Artist "
  | Genre => "Genre "
  | SongName => "Song "
  | Paragraph => "Lorem ipsum dolor "
  end.

Definition fakeString (k : StrGen) (g : G) : string * G :=
  (label k +:+ nat_to_string g, S g).

Definition numberInt (lo hi : Z) (g : G) : Z * G :=
  ((if (lo <=? hi)%Z then lo + Z.of_nat g mod (hi - lo + 1) else lo)%Z, S g).

Definition pastYear (years : Z) (g : G) : Z * G :=
  ((2024 - Z.of_nat g mod (Z.max years 1))%Z, S g).

Definition nowISO (g : G) : string * G := ("2024-01-01T00:00:00.000Z", g).

Definition SEED_KEY : string := "dev-seed-key".

Definition emptyDb : Firestore :=
  {| fs_docs := ∅; fs_calls := []; fs_clock := 0; fs_nextAuto := 0 |}.

Definition world0 : World G := mkWorld 0%nat emptyDb.

(** [GET /seedData?key=dev-seed-key&users=2&artists=1] *)
Definition seedRequest : Request :=
  {| req_query := list_to_map [("key", JStr "dev-seed-key"); ("users", JStr "2");
                               ("artists", JStr "1")];
     req_headers := ∅;
     req_body := JUndefined |}.


(** [GET /seedData?key=dev-seed-key&users=2&artists=0&reviewsPerUser=0]:
    two users and nothing else. *)
Definition usersOnly : Request :=
  {| req_query := list_to_map [("key", JStr "dev-seed-key"); ("users", JStr "2");
                               ("artists", JStr "0"); ("reviewsPerUser", JStr "0")];
     req_headers := ∅;
     req_body := JUndefined |}.



(** A request without any key. *)
Definition noKey : Request :=
  {| req_query := ∅; req_headers := ∅; req_body := JUndefined |}.

(** A request whose query and body carry different keys. *)
Definition twoKeys : Request :=
  {| req_query := list_to_map [("key", JStr "dev-seed-key")];
     req_headers := ∅;
     req_body := JObj (list_to_map [("key", JStr "wrong")]) |}.

(** A database holding one user. *)
Definition bar : Doc :=
  list_to_map [("id", SPlain (JStr "u1")); ("username", SPlain (JStr "Bar"));
               ("usernameLowercase", SPlain (JStr "bar")); ("name", SPlain (JStr "Bar B"));
               ("nameLowercase", SPlain (JStr "bar b"))].

Definition dbWithBar : Firestore :=
  {| fs_docs := {[ ("users", inl "u1") := bar ]};
     fs_calls := []; fs_clock := 7; fs_nextAuto := 0 |}.

Definition world1 : World G := mkWorld 0%nat dbWithBar.

(** A database holding that user and a document of another collection. *)
Definition playlist : Doc := list_to_map [("title", SPlain (JStr "Favourites"))].

Definition dbWithMore : Firestore :=
  {| fs_docs := list_to_map [ (("users", inl "u1"), bar);
                              (("playlists", inl "p1"), playlist) ];
     fs_calls := []; fs_clock := 7; fs_nextAuto := 0 |}.

Definition world2 : World G := mkWorld 0%nat dbWithMore.

Definition updateRequest (updates : JsVal) : Request :=
  {| req_query := ∅;
     req_headers := ∅;
     req_body := JObj (list_to_map [("key", JStr "dev-seed-key"); ("id", JStr "u1");
                                    ("updates", updates)]) |}.

(** [{ username: "Foo" }] *)
Definition setFoo : JsVal := JObj {[ "username" := JStr "Foo" ]}.

(** [{ username: "Foo", name: "Foo F" }] *)
Definition setBoth : JsVal :=
  JObj (list_to_map [("username", JStr "Foo"); ("name", JStr "Foo F")]).

(** [POST /updateUser] with a valid key and updates but no id. *)
Definition missingId : Request :=
  {| req_query := ∅;
     req_headers := ∅;
     req_body := JObj (list_to_map [("key", JStr "dev-seed-key"); ("updates", setFoo)]) |}.

(** A request whose only key is in the [x-seed-key] header. *)
Definition headerKey : Request :=
  {| req_query := ∅;
     req_headers := {[ "x-seed-key" := "dev-seed-key" ]};
     req_body := JUndefined |}.

(** [GET /seedData?key=dev-seed-key&artists=0]: users and reviews are
    asked for, by default, but there will be no album to review. *)
Definition emptyPool : Request :=
  {| req_query := list_to_map [("key", JStr "dev-seed-key"); ("artists", JStr "0")];
     req_headers := ∅;
     req_body := JUndefined |}.


(** A deployment configuration [{ seed: { key: "s3cret" } }]. *)
Definition configured : option (gmap string JsVal) :=
  Some {[ "seed" := JObj {[ "key" := JStr "s3cret" ]} ]}.


(** [["a", "b"]] sent as updates. *)
Definition setArray : JsVal := JArr [JStr "a"; JStr "b"].


End Sample.

Section Functions.

(** *** The runtime and the external collaborators *)

(** [Number(s)] and [String(n)], the two rounding conversions. *)
Variable StringToNumber : string -> jsnum.
Variable NumberToString : jsnum -> string.

(** [String.prototype.toLowerCase]; on a string of ASCII characters it
    lowers the letters [A]-[Z] and keeps the rest. *)
Variable toLowerCase : string -> string.
Hypothesis toLowerCase_ascii : forall s,
  string_forallb is_ascii s = true -> toLowerCase s = string_map ascii_lower s.

(** The state read by the generators (pseudo-random generator, clock). *)
Variable G : Type.
Variable fakeString : StrGen -> G -> string * G.
(** [faker.number.int({ min, max })] *)
Variable numberInt : Z -> Z -> G -> Z * G.
(** [faker.date.past({ years }).getFullYear()] *)
Variable pastYear : Z -> G -> Z * G.
(** [new Date().toISOString()] *)
Variable nowISO : G -> string * G.

(** The server-held secret. *)
Variable SEED_KEY : string.

(** *** Conversions *)

Fixpoint ToString (v : JsVal) : string :=
  match v with
  | JUndefined => "undefined"
  | JNull => "null"
  | JBool true => "true"
  | JBool false => "false"
  | JNum n => NumberToString n
  | JStr s => s
  | JArr l =>
      (fix join (l : list JsVal) : string :=
         match l with
         | [] => ""
         | x :: rest =>
             let sx := match x with
                       | JUndefined | JNull => ""
                       | _ => ToString x
                       end in
             match rest with
             | [] => sx
             | _ => sx +:+ "," +:+ join rest
             end
         end) l
  | JObj _ => "[object Object]"
  end.

Definition ToNumber (v : JsVal) : jsnum :=
  match v with
  | JUndefined => NaN
  | JNull => of_Z 0
  | JBool true => of_Z 1
  | JBool false => of_Z 0
  | JNum n => n
  | JStr s => StringToNumber s
  | JArr _ | JObj _ => StringToNumber (ToString v)
  end.

(** *** The world and the monad of the handlers *)

Definition M (A : Type) : Type := World G -> Outcome A * World G.

Definition ret {A} (a : A) : M A := fun w => (Ok a, w).
Definition throw {A} (e : string) : M A := fun w => (Throw e, w).
Definition bind {A B} (m : M A) (f : A -> M B) : M B :=
  fun w =>
    match m w with
    | (Ok a, w') => f a w'
    | (Throw e, w') => (Throw e, w')
    | (OutOfFuel, w') => (OutOfFuel, w')
    end.

Notation "x <- m ;; k" := (bind m (fun x => k))
  (at level 100, m at next level, right associativity).

Definition with_rng {A} (f : G -> A * G) : M A :=
  fun w => let (a, g) := f (w_rng w) in (Ok a, mkWorld g (w_db w)).

Definition with_db {A} (f : Firestore -> A * Firestore) : M A :=
  fun w => let (a, d) := f (w_db w) in (Ok a, mkWorld (w_rng w) d).

Definition faker (k : StrGen) : M string := with_rng (fakeString k).
Definition faker_int (lo hi : Z) : M Z := with_rng (numberInt lo hi).

(** *** Generators *)

Definition makeFakeUser : M User :=
  id <- faker Uuid ;;
  raw <- faker UserName ;;
  let username := toLowerCase (strip_non_word raw) in
  name <- faker FullName ;;
  profileImageUrl <- faker Avatar ;;
  email <- faker Email ;;
  bio <- faker Sentence ;;
  ret {| u_id := id;
         u_username := username;
         u_email := email;
         u_name := name;
         u_bio := bio;
         u_profileImageUrl := profileImageUrl;
         u_avatarUrl := profileImageUrl;
         u_usernameLowercase := toLowerCase username;
         u_nameLowercase := toLowerCase name;
         u_followers := 0;
         u_followersCount := 0;
         u_following := 0;
         u_followingCount := 0;
         u_createdAt := FServerTimestamp;
         u_updatedAt := FServerTimestamp |}.

(** [faker.image.urlPicsum()]: the [image] module of the library has no
    member of that name (its Picsum method is [urlPicsumPhotos]), so the
    call is a call of [undefined] and throws a [TypeError]. *)
Definition image_urlPicsum : M string :=
  throw "TypeError: faker.image.urlPicsum is not a function".

Definition makeFakeArtist : M Artist :=
  id <- faker_int 1000 9999 ;;
  name <- faker MusicArtist ;;
  img <- image_urlPicsum ;;
  genre <- faker Genre ;;
  ret {| ar_id := id;
         ar_name := name;
         ar_profileImageUrl := img;
         ar_genre := genre;
         ar_createdAt := FServerTimestamp |}.

Definition makeFakeAlbum (artist : Artist) : M Album :=
  id <- faker_int 10000 99999 ;;
  title <- faker SongName ;;
  year <- with_rng (pastYear 30) ;;
  cover <- image_urlPicsum ;;
  ret {| al_id := id;
         al_title := title;
         al_year := int_to_string year;
         al_coverUrl := cover;
         al_artist := {| sn_id := ar_id artist;
                         sn_name := ar_name artist;
                         sn_profileImageUrl := ar_profileImageUrl artist;
                         sn_genre := ar_genre artist |};
         al_createdAt := FServerTimestamp |}.

Definition makeFakeReview (userId : string) (albumId : Z) : M Review :=
  content <- faker Paragraph ;;
  score <- faker_int 0 100 ;;
  likes <- faker_int 0 50 ;;
  created <- with_rng nowISO ;;
  updated <- with_rng nowISO ;;
  ret {| rv_content := content;
         rv_score := score;
         rv_isLowScore := false;
         rv_albumId := albumId;
         rv_userId := userId;
         rv_firebaseUserId := userId;
         rv_likesCount := likes;
         rv_createdAt := created;
         rv_updatedAt := updated |}.

(** [faker.helpers.arrayElement(arr)]: the element at an index drawn
    from the generator; the library throws on an empty array, and the
    caller's [album.id] throws on [undefined]. *)
Definition arrayElement {A} (arr : list A) : M A :=
  match arr with
  | [] => throw "FakerError: Cannot get value from empty dataset."
  | _ =>
      k <- faker_int 0 (Z.of_nat (length arr) - 1) ;;
      match nth_error arr (Z.to_nat k) with
      | Some x => ret x
      | None => throw "TypeError: Cannot read properties of undefined"
      end
  end.

(** *** Loops *)

(** [for (let i = i0; i < n; i++) body], threading the arrays the body
    pushes to. *)
Fixpoint for_lt {St} (fuel : nat) (n : jsnum) (body : St -> M St) (i : Z) (s : St)
  : M St :=
  match fuel with
  | O => fun w => (OutOfFuel, w)
  | S fuel' =>
      if num_ltb (of_Z i) n
      then s' <- body s ;; for_lt fuel' n body (i + 1)%Z s'
      else ret s
  end.

(** [k] rounds of a loop body. *)
Fixpoint iterM {St} (k : nat) (body : St -> M St) (s : St) : M St :=
  match k with
  | O => ret s
  | S k' => s' <- body s ;; iterM k' body s'
  end.

(** [for (const x of l) body] *)
Fixpoint for_of {A St} (l : list A) (body : A -> St -> M St) (s : St) : M St :=
  match l with
  | [] => ret s
  | x :: rest => s' <- body x s ;; for_of rest body s'
  end.

(** *** The storage gateway, as the handlers call it *)

(** [db.collection(coll).doc(id)]: the client rejects an empty path. *)
Definition doc (coll id : string) : M DocRef :=
  if String.eqb id ""
  then throw "Error: documentPath must be a non-empty string"
  else ret (mkRef coll (inl id)).

(** [db.collection(coll).doc()]: a fresh auto-assigned key. *)
Definition doc_auto (coll : string) : M DocRef :=
  with_db (fun fs =>
    (mkRef coll (inr (fs_nextAuto fs)),
     {| fs_docs := fs_docs fs; fs_calls := fs_calls fs;
        fs_clock := fs_clock fs; fs_nextAuto := S (fs_nextAuto fs) |})).

(** [batch.set(ref, data, { merge: true })]: the write joins the batch,
    unless the client refuses its data. *)
Definition batch_set (batch : list WriteOp) (op : WriteOp) : M (list WriteOp) :=
  if payload_storable (op_data op)
  then ret (batch ++ [op])
  else throw "Error: Cannot use undefined as a Firestore value".

Definition batch_commit (batch : list WriteOp) : M unit :=
  with_db (fun fs => (tt, commit batch fs)).

(** [ref.update(data)].  The client checks the data before anything is
    sent: it throws on [undefined], on a key that is not a field path
    and on conflicting paths.  Modelled from the spec: the server then
    applies the data as a partial update of an existing document and
    fails when the document does not exist. *)
Definition doc_update (r : DocRef) (data : Payload) : M unit :=
  fun w =>
    let fs := w_db w in
    if negb (payload_storable data)
    then (Throw "Error: Cannot use undefined as a Firestore value", w)
    else
      match update_paths data with
      | None => (Throw "Error: Paths must not be empty or malformed", w)
      | Some ps =>
          if conflicting ps
          then (Throw "Error: a field was specified multiple times", w)
          else
            match fs_docs fs !! ref_path r with
            | Some d =>
                (Ok tt,
                 mkWorld (w_rng w)
                   {| fs_docs :=
                        <[ref_path r := apply_update (fs_clock fs) data d]> (fs_docs fs);
                      fs_calls := fs_calls fs ++ [DocUpdate r data];
                      fs_clock := S (fs_clock fs);
                      fs_nextAuto := fs_nextAuto fs |})
            | None =>
                (Throw "Error: 5 NOT_FOUND: No document to update",
                 mkWorld (w_rng w)
                   {| fs_docs := fs_docs fs;
                      fs_calls := fs_calls fs ++ [DocUpdate r data];
                      fs_clock := fs_clock fs;
                      fs_nextAuto := fs_nextAuto fs |})
            end
      end.

(** [(await ref.get()).data()] *)
Definition doc_get (r : DocRef) : M (option Doc) :=
  fun w => (Ok (fs_docs (w_db w) !! ref_path r), w).

(** *** seedData *)

Definition unauthorized : Response :=
  mkResponse 401 (ErrorBody "Unauthorized (invalid key)").

(** [!key || key !== SEED_KEY] *)
Definition key_rejected (key : JsVal) : bool :=
  negb (truthy key) || strict_neq_str key SEED_KEY.

Definition seed_key (req : Request) : JsVal :=
  js_or (js_or (js_or (get_prop (JObj (req_query req)) "key")
                      (req_get req "x-seed-key"))
               (js_and (req_body req) (get_prop (req_body req) "key")))
        (JStr "").

Definition query_of (req : Request) (k : string) : JsVal :=
  get_prop (JObj (req_query req)) k.

Definition usersCount (req : Request) : jsnum :=
  Math_min
    (ToNumber (js_or (js_or (query_of req "users") (opt_chain (req_body req) "users"))
                     (JInt 20)))
    (of_Z 500).

Definition artistsCount (req : Request) : jsnum :=
  Math_min
    (ToNumber (js_or (js_or (query_of req "artists") (opt_chain (req_body req) "artists"))
                     (JInt 8)))
    (of_Z 200).

Definition albumsPerArtist (req : Request) : jsnum :=
  Math_min (ToNumber (js_or (query_of req "albumsPerArtist") (JInt 3))) (of_Z 20).

Definition reviewsPerUser (req : Request) : jsnum :=
  Math_min (ToNumber (js_or (query_of req "reviewsPerUser") (JInt 2))) (of_Z 20).

Definition genUsers (fuel : nat) (n : jsnum) : M (list User) :=
  for_lt fuel n (fun users => u <- makeFakeUser ;; ret (users ++ [u])) 0%Z [].

Definition genAlbums (fuel : nat) (n : jsnum) (art : Artist) (albums : list Album)
  : M (list Album) :=
  for_lt fuel n (fun albums => al <- makeFakeAlbum art ;; ret (albums ++ [al])) 0%Z albums.

Definition genArtists (fuel : nat) (n perArtist : jsnum)
  : M (list Artist * list Album) :=
  for_lt fuel n
    (fun st =>
       art <- makeFakeArtist ;;
       albums <- genAlbums fuel perArtist art (snd st) ;;
       ret (fst st ++ [art], albums))
    0%Z ([], []).

Definition genUserReviews (fuel : nat) (n : jsnum) (albums : list Album) (u : User)
    (reviews : list Review) : M (list Review) :=
  for_lt fuel n
    (fun reviews =>
       album <- arrayElement albums ;;
       rv <- makeFakeReview (u_id u) (al_id album) ;;
       ret (reviews ++ [rv]))
    0%Z reviews.

Definition genReviews (fuel : nat) (n : jsnum) (users : list User) (albums : list Album)
  : M (list Review) :=
  for_of users (genUserReviews fuel n albums) [].

Fixpoint commitLoop (ops batch : list WriteOp) (count : nat) : M unit :=
  match ops with
  | [] => if (0 <? count)%nat then batch_commit batch else ret tt
  | op :: rest =>
      batch <- batch_set batch op ;;
      let count := S count in
      if (BATCH_SIZE <=? count)%nat
      then _ <- batch_commit batch ;; commitLoop rest [] 0
      else commitLoop rest batch count
  end.

Definition commitBatchOps (ops : list WriteOp) : M unit := commitLoop ops [] 0.

Definition FStr (s : string) : FieldVal := FPlain (JStr s).
Definition FInt (z : Z) : FieldVal := FPlain (JInt z).

(** The payload the handler builds for a user (lines 159-174). *)
Definition userPayload (u : User) : Payload :=
  list_to_map
  [ ("id", FStr (u_id u));
    ("username", FStr (u_username u));
    ("email", FStr (u_email u));
    ("name", FStr (u_name u));
    ("bio", FStr (u_bio u));
    ("profileImageUrl", FStr (u_profileImageUrl u));
    ("avatarUrl", FStr (u_avatarUrl u));
    ("usernameLowercase", FStr (u_usernameLowercase u));
    ("nameLowercase", FStr (u_nameLowercase u));
    ("followers", FInt 0);
    ("followersCount", FInt 0);
    ("following", FInt 0);
    ("followingCount", FInt 0);
    ("createdAt", FServerTimestamp) ].

(** The artist object itself is the payload. *)
Definition artistPayload (a : Artist) : Payload :=
  list_to_map
  [ ("id", FInt (ar_id a));
    ("name", FStr (ar_name a));
    ("profileImageUrl", FStr (ar_profileImageUrl a));
    ("genre", FStr (ar_genre a));
    ("createdAt", ar_createdAt a) ].

Definition snapshotObject (s : ArtistSnapshot) : JsVal :=
  JObj (list_to_map
          [ ("id", JInt (sn_id s));
            ("name", JStr (sn_name s));
            ("profileImageUrl", JStr (sn_profileImageUrl s));
            ("genre", JStr (sn_genre s)) ]).

Definition albumPayload (al : Album) : Payload :=
  list_to_map
  [ ("id", FInt (al_id al));
    ("title", FStr (al_title al));
    ("year", FStr (al_year al));
    ("coverUrl", FStr (al_coverUrl al));
    ("artist", FPlain (snapshotObject (al_artist al)));
    ("createdAt", FServerTimestamp) ].

(** The review object itself is the payload. *)
Definition reviewPayload (rv : Review) : Payload :=
  list_to_map
  [ ("content", FStr (rv_content rv));
    ("score", FInt (rv_score rv));
    ("isLowScore", FPlain (JBool (rv_isLowScore rv)));
    ("albumId", FInt (rv_albumId rv));
    ("userId", FStr (rv_userId rv));
    ("firebaseUserId", FStr (rv_firebaseUserId rv));
    ("likesCount", FInt (rv_likesCount rv));
    ("createdAt", FStr (rv_createdAt rv));
    ("updatedAt", FStr (rv_updatedAt rv)) ].

Definition push_op {A} (mkref : A -> M DocRef) (payload : A -> Payload)
    (x : A) (ops : list WriteOp) : M (list WriteOp) :=
  r <- mkref x ;; ret (ops ++ [mkOp r (payload x)]).

Definition buildOps (users : list User) (artists : list Artist)
    (albums : list Album) (reviews : list Review) : M (list WriteOp) :=
  ops <- for_of users (push_op (fun u => doc "users" (u_id u)) userPayload) [] ;;
  ops <- for_of artists
           (push_op (fun a => doc "artists" (int_to_string (ar_id a))) artistPayload) ops ;;
  ops <- for_of albums
           (push_op (fun al => doc "albums" (int_to_string (al_id al))) albumPayload) ops ;;
  for_of reviews (push_op (fun _ => doc_auto "reviews") reviewPayload) ops.

(** Everything the handler generates before it writes. *)
Definition generate (fuel : nat) (req : Request)
  : M (list User * list Artist * list Album * list Review) :=
  users <- genUsers fuel (usersCount req) ;;
  aa <- genArtists fuel (artistsCount req) (albumsPerArtist req) ;;
  reviews <- genReviews fuel (reviewsPerUser req) users (snd aa) ;;
  ret (users, fst aa, snd aa, reviews).

Definition seedBody (fuel : nat) (req : Request) : M Response :=
  let key := seed_key req in
  if key_rejected key then ret unauthorized
  else
    gen <- generate fuel req ;;
    let '(users, artists, albums, reviews) := gen in
    ops <- buildOps users artists albums reviews ;;
    _ <- commitBatchOps ops ;;
    ret (mkResponse 200
           (SeedBody "Seeding completed"
              (length users) (length artists) (length albums) (length reviews))).

(** [try { ... } catch (err) { res.status(500).json(...) }]; [None] when
    the fuel given to the loops did not suffice. *)
Definition try_catch (m : M Response) (w : World G) : option Response * World G :=
  match m w with
  | (Ok r, w') => (Some r, w')
  | (Throw e, w') => (Some (mkResponse 500 (ErrorBody e)), w')
  | (OutOfFuel, w') => (None, w')
  end.

Definition seedData (fuel : nat) (req : Request) : World G -> option Response * World G :=
  try_catch (seedBody fuel req).

(** *** updateUser *)

Definition update_key (req : Request) : JsVal :=
  js_or (js_or (js_or (opt_chain (req_body req) "key")
                      (opt_chain (JObj (req_query req)) "key"))
               (req_get req "x-seed-key"))
        (JStr "").

Definition update_id (req : Request) : JsVal :=
  js_or (opt_chain (req_body req) "id") (opt_chain (JObj (req_query req)) "id").

Definition update_updates (req : Request) : JsVal :=
  js_or (opt_chain (req_body req) "updates") (opt_chain (JObj (req_query req)) "updates").

(** [!id || !updates || typeof updates !== "object"] *)
Definition bad_request (id updates : JsVal) : bool :=
  negb (truthy id) || negb (truthy updates) || negb (typeof_object updates).

(** [updates.k ? String(updates.k).toLowerCase() : undefined] *)
Definition lowered (updates : JsVal) (k : string) : JsVal :=
  if truthy (get_prop updates k)
  then JStr (toLowerCase (ToString (get_prop updates k)))
  else JUndefined.

(** The object literal passed to [userRef.update] (lines 246-251). *)
Definition updatePayload (updates : JsVal) : Payload :=
  <["updatedAt" := FServerTimestamp]>
    (<["nameLowercase" := FPlain (lowered updates "name")]>
       (<["usernameLowercase" := FPlain (lowered updates "username")]>
          (FPlain <$> spread updates))).

(** [db.collection("users").doc(id)] for the value found in the request. *)
Definition doc_of (coll : string) (id : JsVal) : M DocRef :=
  match id with
  | JStr s => doc coll s
  | _ => throw "Error: documentPath must be a non-empty string"
  end.

Definition updateBody (req : Request) : M Response :=
  let key := update_key req in
  if key_rejected key then ret unauthorized
  else
    let id := update_id req in
    let updates := update_updates req in
    if bad_request id updates
    then ret (mkResponse 400 (ErrorBody "Bad request: missing id or updates"))
    else
      userRef <- doc_of "users" id ;;
      _ <- doc_update userRef (updatePayload updates) ;;
      updated <- doc_get userRef ;;
      ret (mkResponse 200 (UserBody updated)).

Definition updateUser (req : Request) : World G -> option Response * World G :=
  try_catch (updateBody req).

(** *** Both endpoints *)

Definition supplied_key (e : Endpoint) (req : Request) : JsVal :=
  match e with
  | SeedData => seed_key req
  | UpdateUser => update_key req
  end.

Definition handle (e : Endpoint) (fuel : nat) (req : Request)
  : World G -> option Response * World G :=
  match e with
  | SeedData => seedData fuel req
  | UpdateUser => updateUser req
  end.

(** ** Predicates used in the statements *)

(** A computation that never runs out of fuel. *)
Definition no_timeout {A} (m : M A) : Prop := forall w, fst (m w) <> OutOfFuel.

(** A computation that leaves the database as it found it. *)
Definition db_frame {A} (m : M A) : Prop := forall w, w_db (snd (m w)) = w_db w.

(** The calls the gateway has received so far. *)
Definition calls (w : World G) : list GatewayCall := fs_calls (w_db w).

(** What [makeFakeUser] establishes for a user. *)
Definition user_inv (u : User) : Prop :=
  u_usernameLowercase u = toLowerCase (u_username u) /\
  u_nameLowercase u = toLowerCase (u_name u) /\
  u_avatarUrl u = u_profileImageUrl u /\
  (exists raw, u_username u = toLowerCase (strip_non_word raw)) /\
  u_createdAt u = FServerTimestamp /\
  u_updatedAt u = FServerTimestamp.

(** A review of user [u] on an album of the pool. *)
Definition review_of (u : User) (albums : list Album) (rv : Review) : Prop :=
  rv_userId rv = u_id u /\
  exists al, In al albums /\ rv_albumId rv = al_id al.

(** A review whose user and album are in the pools. *)
Definition review_in (users : list User) (albums : list Album) (rv : Review) : Prop :=
  exists u, In u users /\ review_of u albums rv.

(** The writes [ops] are those of the entities [l], one each and in
    order, into collection [coll] with payload [payload]. *)
Definition written {A} (coll : string) (payload : A -> Payload)
    (l : list A) (ops : list WriteOp) : Prop :=
  Forall2 (fun x op => ref_collection (op_ref op) = coll /\ op_data op = payload x) l ops.

(** Batches as [commitBatchOps] cuts them: every batch but the last is
    full, the last holds between 1 and [BATCH_SIZE] writes. *)
Fixpoint batches_ok (bs : list (list WriteOp)) : Prop :=
  match bs with
  | [] => True
  | b :: rest =>
      match rest with
      | [] => (1 <= length b <= BATCH_SIZE)%nat
      | _ => length b = BATCH_SIZE /\ batches_ok rest
      end
  end.

(** What a run of [seedData] that answers 200 has done: it generated
    [users], [artists], [albums] and [reviews], turned them into the
    writes [o1 ++ o2 ++ o3 ++ o4], and committed these as the batches
    [bs]; [w] and [w'] are the world before and after, [r] the response. *)
Definition seed_run (req : Request) (w w' : World G) (r : Response)
    (users : list User) (artists : list Artist) (albums : list Album)
    (reviews : list Review) (o1 o2 o3 o4 : list WriteOp)
    (bs : list (list WriteOp)) : Prop :=
  key_rejected (seed_key req) = false /\
  length users = iterations (usersCount req) /\
  length artists = iterations (artistsCount req) /\
  length albums = (iterations (artistsCount req) * iterations (albumsPerArtist req))%nat /\
  length reviews = (iterations (usersCount req) * iterations (reviewsPerUser req))%nat /\
  Forall user_inv users /\
  Forall (review_in users albums) reviews /\
  written "users" userPayload users o1 /\
  written "artists" artistPayload artists o2 /\
  written "albums" albumPayload albums o3 /\
  written "reviews" reviewPayload reviews o4 /\
  concat bs = o1 ++ o2 ++ o3 ++ o4 /\
  batches_ok bs /\
  calls w' = calls w ++ map BatchCommit bs /\
  r = mkResponse 200
        (SeedBody "Seeding completed"
           (length users) (length artists) (length albums) (length reviews)).



(** A computation that always returns a value. *)
Definition always_ok {A} (m : M A) : Prop := forall w, exists a w', m w = (Ok a, w').

(** The documents stored in a world. *)
Definition docs (w : World G) : gmap (string * DocKey) Doc := fs_docs (w_db w).


(** What a run of the handler's body can have changed. *)
Definition update_effect (req : Request) (w w' : World G) : Prop :=
  w_rng w' = w_rng w /\
  store_extends (docs w) (docs w') /\
  (forall p, (forall s, update_id req = JStr s -> p <> ("users", inl s)) ->
             docs w' !! p = docs w !! p) /\
  (length (calls w) <= length (calls w') <= S (length (calls w)))%nat.

(** Where the handler writes each kind of entity. *)
Definition user_ref (u : User) : DocRef := mkRef "users" (inl (u_id u)).
Definition artist_ref (a : Artist) : DocRef :=
  mkRef "artists" (inl (int_to_string (ar_id a))).
Definition album_ref (al : Album) : DocRef :=
  mkRef "albums" (inl (int_to_string (al_id al))).

(** The write [op] is that of one of the generated entities: a user, an
    artist or an album under the key made of its id, or a review under
    an auto-assigned key. *)
Definition write_of (users : list User) (artists : list Artist)
    (albums : list Album) (reviews : list Review) (op : WriteOp) : Prop :=
  (exists u, In u users /\ op_ref op = user_ref u /\ op_data op = userPayload u) \/
  (exists a, In a artists /\ op_ref op = artist_ref a /\ op_data op = artistPayload a) \/
  (exists al, In al albums /\ op_ref op = album_ref al /\ op_data op = albumPayload al) \/
  (exists rv n, In rv reviews /\ op_ref op = mkRef "reviews" (inr n) /\
                op_data op = reviewPayload rv).


(** ** Numbers and counting loops *)

Lemma num_ltb_iterations (n : jsnum) (i : nat) :
  n <> PosInf -> num_ltb (of_nat i) n = (i <? iterations n)%nat.
Proof.
  intros Hn. destruct n as [ | | | q]; try congruence; simpl.
  - symmetry. apply Nat.ltb_ge. lia.
  - symmetry. apply Nat.ltb_ge. lia.
  - destruct (Qle_bool q (inject_Z (Z.of_nat i))) eqn:E; simpl; symmetry.
    + apply Qle_bool_iff in E. apply Qceiling_resp_le in E.
      rewrite Qceiling_Z in E. apply Nat.ltb_ge. lia.
    + apply Nat.ltb_lt.
      assert (Hlt : (inject_Z (Z.of_nat i) < q)%Q).
      { apply Qnot_le_lt. intros H. apply Qle_bool_iff in H. congruence. }
      pose proof (Qlt_le_trans _ _ _ Hlt (Qle_ceiling q)) as H.
      rewrite <- Zlt_Qlt in H. lia.
Qed.

Lemma Math_min_cap (x : jsnum) (c : Z) :
  Math_min x (of_Z c) <> PosInf /\
  (iterations (Math_min x (of_Z c)) <= Z.to_nat c)%nat.
Proof.
  unfold of_Z. destruct x as [ | | | p]; simpl; try (split; [congruence | lia]).
  - split; [congruence |]. rewrite Qceiling_Z. lia.
  - destruct (Qle_bool p (inject_Z c)) eqn:E; simpl.
    + split; [congruence |]. apply Qle_bool_iff in E.
      apply Qceiling_resp_le in E. rewrite Qceiling_Z in E. lia.
    + split; [congruence |]. rewrite Qceiling_Z. lia.
Qed.

Lemma iterations_of_nat (k : nat) : iterations (of_nat k) = k.
Proof. unfold of_nat, of_Z. simpl. rewrite Qceiling_Z. lia. Qed.

(** ** The monad *)

Lemma bind_Ok {A B} (m : M A) (f : A -> M B) w b w2 :
  bind m f w = (Ok b, w2) ->
  exists a w1, m w = (Ok a, w1) /\ f a w1 = (Ok b, w2).
Proof.
  unfold bind. destruct (m w) as [[a | e | ] w1]; intros H; try discriminate.
  exists a, w1. split; [reflexivity | exact H].
Qed.

Lemma ret_Ok {A} (a b : A) w w' : ret a w = (Ok b, w') -> b = a /\ w' = w.
Proof. unfold ret. intros H. inversion H. auto. Qed.

Lemma with_rng_Ok {A} (f : G -> A * G) w a w' :
  with_rng f w = (Ok a, w') ->
  a = fst (f (w_rng w)) /\ w' = mkWorld (snd (f (w_rng w))) (w_db w).
Proof.
  unfold with_rng. destruct (f (w_rng w)) as [x g]. intros H. inversion H. auto.
Qed.

Lemma no_timeout_ret {A} (a : A) : no_timeout (ret a).
Proof. intros w. simpl. discriminate. Qed.

Lemma no_timeout_throw {A} e : no_timeout (@throw A e).
Proof. intros w. simpl. discriminate. Qed.

Lemma no_timeout_with_rng {A} (f : G -> A * G) : no_timeout (with_rng f).
Proof. intros w. unfold with_rng. destruct (f (w_rng w)). simpl. discriminate. Qed.

Lemma no_timeout_with_db {A} (f : Firestore -> A * Firestore) : no_timeout (with_db f).
Proof. intros w. unfold with_db. destruct (f (w_db w)). simpl. discriminate. Qed.

Lemma no_timeout_bind {A B} (m : M A) (f : A -> M B) :
  no_timeout m -> (forall a, no_timeout (f a)) -> no_timeout (bind m f).
Proof.
  intros Hm Hf w. unfold bind. specialize (Hm w).
  destruct (m w) as [[a | e | ] w1]; simpl in *; [apply Hf | discriminate | congruence].
Qed.

Lemma db_frame_ret {A} (a : A) : db_frame (ret a).
Proof. intros w. reflexivity. Qed.

Lemma db_frame_throw {A} e : db_frame (@throw A e).
Proof. intros w. reflexivity. Qed.

Lemma db_frame_with_rng {A} (f : G -> A * G) : db_frame (with_rng f).
Proof. intros w. unfold with_rng. destruct (f (w_rng w)). reflexivity. Qed.

Lemma db_frame_bind {A B} (m : M A) (f : A -> M B) :
  db_frame m -> (forall a, db_frame (f a)) -> db_frame (bind m f).
Proof.
  intros Hm Hf w. unfold bind. specialize (Hm w).
  destruct (m w) as [[a | e | ] w1]; simpl in *; try assumption.
  rewrite Hf. assumption.
Qed.

(** *** Loops *)

Lemma iterM_no_timeout {St} (body : St -> M St) :
  (forall s, no_timeout (body s)) -> forall k s, no_timeout (iterM k body s).
Proof.
  intros Hb k. induction k as [ | k IH]; intros s; simpl.
  - apply no_timeout_ret.
  - apply no_timeout_bind; auto.
Qed.

Lemma iterM_db_frame {St} (body : St -> M St) :
  (forall s, db_frame (body s)) -> forall k s, db_frame (iterM k body s).
Proof.
  intros Hb k. induction k as [ | k IH]; intros s; simpl.
  - apply db_frame_ret.
  - apply db_frame_bind; auto.
Qed.

(** An invariant indexed by the number of rounds done. *)
Lemma iterM_inv {St} (I : nat -> St -> Prop) (body : St -> M St) :
  (forall j s w s' w', I j s -> body s w = (Ok s', w') -> I (S j) s') ->
  forall k j s w s' w',
    I j s -> iterM k body s w = (Ok s', w') -> I (j + k)%nat s'.
Proof.
  intros Hb k. induction k as [ | k IH]; intros j s w s' w' HI H; simpl in H.
  - apply ret_Ok in H as [-> _]. replace (j + 0)%nat with j by lia. exact HI.
  - apply bind_Ok in H as (s1 & w1 & H1 & H2).
    replace (j + S k)%nat with (S j + k)%nat by lia.
    eapply IH; [ | exact H2]. eapply Hb; eauto.
Qed.

(** With enough fuel a counting loop is [iterations n] rounds of its body. *)
Lemma for_lt_iterM {St} (n : jsnum) (body : St -> M St) :
  n <> PosInf ->
  forall fuel i s w,
    (iterations n - i < fuel)%nat ->
    for_lt fuel n body (Z.of_nat i) s w = iterM (iterations n - i) body s w.
Proof.
  intros Hn fuel. induction fuel as [ | fuel IH]; intros i s w Hf; [lia |].
  cbn [for_lt]. change (of_Z (Z.of_nat i)) with (of_nat i).
  rewrite (num_ltb_iterations n i Hn).
  destruct (i <? iterations n)%nat eqn:E.
  - apply Nat.ltb_lt in E.
    replace (iterations n - i)%nat with (S (iterations n - S i)) by lia.
    cbn [iterM]. unfold bind. destruct (body s w) as [[s1 | e | ] w1]; try reflexivity.
    replace (Z.of_nat i + 1)%Z with (Z.of_nat (S i)) by lia.
    apply IH. lia.
  - apply Nat.ltb_ge in E.
    replace (iterations n - i)%nat with 0%nat by lia. reflexivity.
Qed.

Lemma for_lt_rounds {St} (fuel : nat) (n : jsnum) (body : St -> M St) s w :
  n <> PosInf -> (iterations n < fuel)%nat ->
  for_lt fuel n body 0%Z s w = iterM (iterations n) body s w.
Proof.
  intros Hn Hf. change 0%Z with (Z.of_nat 0).
  rewrite (for_lt_iterM n body Hn fuel 0 s w) by lia.
  f_equal. lia.
Qed.

Lemma for_of_no_timeout {A St} (body : A -> St -> M St) :
  (forall x s, no_timeout (body x s)) -> forall l s, no_timeout (for_of l body s).
Proof.
  intros Hb l. induction l as [ | x l IH]; intros s; simpl.
  - apply no_timeout_ret.
  - apply no_timeout_bind; auto.
Qed.

Lemma for_of_db_frame {A St} (body : A -> St -> M St) :
  (forall x s, db_frame (body x s)) -> forall l s, db_frame (for_of l body s).
Proof.
  intros Hb l. induction l as [ | x l IH]; intros s; simpl.
  - apply db_frame_ret.
  - apply db_frame_bind; auto.
Qed.

(** An invariant over the part of the array already visited, which may
    depend on the world. *)
Lemma for_of_inv {A St} (I : list A -> St -> World G -> Prop) (body : A -> St -> M St) :
  (forall seen x s w s' w',
      I seen s w -> body x s w = (Ok s', w') -> I (seen ++ [x]) s' w') ->
  forall l seen s w s' w',
    I seen s w -> for_of l body s w = (Ok s', w') -> I (seen ++ l) s' w'.
Proof.
  intros Hb l. induction l as [ | x l IH]; intros seen s w s' w' HI H; simpl in H.
  - apply ret_Ok in H as [-> ->]. rewrite app_nil_r. exact HI.
  - apply bind_Ok in H as (s1 & w1 & H1 & H2).
    replace (seen ++ x :: l) with ((seen ++ [x]) ++ l)
      by (rewrite <- app_assoc; reflexivity).
    eapply IH; [ | exact H2]. eapply Hb; eauto.
Qed.

Lemma for_lt_db_frame {St} (n : jsnum) (body : St -> M St) :
  (forall s, db_frame (body s)) ->
  forall fuel i s, db_frame (for_lt fuel n body i s).
Proof.
  intros Hb fuel. induction fuel as [ | fuel IH]; intros i s; cbn [for_lt].
  - intros w. reflexivity.
  - destruct (num_ltb (of_Z i) n).
    + apply db_frame_bind; auto.
    + apply db_frame_ret.
Qed.

Lemma for_lt_no_timeout {St} (fuel : nat) (n : jsnum) (body : St -> M St) s :
  n <> PosInf -> (iterations n < fuel)%nat ->
  (forall s, no_timeout (body s)) -> no_timeout (for_lt fuel n body 0%Z s).
Proof.
  intros Hn Hf Hb w. rewrite for_lt_rounds by assumption.
  apply iterM_no_timeout. exact Hb.
Qed.

(** ** Generators *)

Ltac inv_M :=
  repeat match goal with
    | H : bind _ _ _ = (Ok _, _) |- _ =>
        let a := fresh "a" in let w := fresh "w" in let H1 := fresh "H" in
        apply bind_Ok in H as (a & w & H1 & H)
    | H : ret _ _ = (Ok _, _) |- _ => apply ret_Ok in H as [? ?]; subst
    | H : with_rng _ _ = (Ok _, _) |- _ => apply with_rng_Ok in H as [? ?]; subst
    | H : faker _ _ = (Ok _, _) |- _ => apply with_rng_Ok in H as [? ?]; subst
    | H : faker_int _ _ _ = (Ok _, _) |- _ => apply with_rng_Ok in H as [? ?]; subst
    end.

Ltac frame_M :=
  repeat first
    [ apply db_frame_bind; [ | intros ? ]
    | apply db_frame_ret
    | apply db_frame_throw
    | apply db_frame_with_rng ].

Ltac total_M :=
  repeat first
    [ apply no_timeout_bind; [ | intros ? ]
    | apply no_timeout_ret
    | apply no_timeout_throw
    | apply no_timeout_with_rng
    | apply no_timeout_with_db ].

Lemma makeFakeUser_inv w u w' : makeFakeUser w = (Ok u, w') -> user_inv u.
Proof.
  unfold makeFakeUser. intros H. inv_M. unfold user_inv; simpl.
  repeat split; eauto.
Qed.

Lemma makeFakeUser_total w : exists u w', makeFakeUser w = (Ok u, w').
Proof.
  unfold makeFakeUser, bind, faker, with_rng, ret.
  repeat match goal with
    | |- context [fakeString ?k ?g] => destruct (fakeString k g); simpl
    end.
  eauto.
Qed.

Lemma makeFakeUser_frame : db_frame makeFakeUser.
Proof. unfold makeFakeUser, faker. frame_M. Qed.

Lemma makeFakeUser_no_timeout : no_timeout makeFakeUser.
Proof. unfold makeFakeUser, faker. total_M. Qed.

Lemma makeFakeArtist_frame : db_frame makeFakeArtist.
Proof. unfold makeFakeArtist, faker, faker_int. frame_M. Qed.

Lemma makeFakeArtist_no_timeout : no_timeout makeFakeArtist.
Proof. unfold makeFakeArtist, faker, faker_int. total_M. Qed.

Lemma makeFakeAlbum_frame a : db_frame (makeFakeAlbum a).
Proof. unfold makeFakeAlbum, faker, faker_int. frame_M. Qed.

Lemma makeFakeAlbum_no_timeout a : no_timeout (makeFakeAlbum a).
Proof. unfold makeFakeAlbum, faker, faker_int. total_M. Qed.

Lemma makeFakeReview_frame u al : db_frame (makeFakeReview u al).
Proof. unfold makeFakeReview, faker, faker_int. frame_M. Qed.

Lemma makeFakeReview_no_timeout u al : no_timeout (makeFakeReview u al).
Proof. unfold makeFakeReview, faker, faker_int. total_M. Qed.

Lemma makeFakeReview_ids u al w rv w' :
  makeFakeReview u al w = (Ok rv, w') -> rv_userId rv = u /\ rv_albumId rv = al.
Proof. unfold makeFakeReview. intros H. inv_M. simpl. auto. Qed.

Lemma arrayElement_In {A} (arr : list A) w x w' :
  arrayElement arr w = (Ok x, w') -> In x arr.
Proof.
  unfold arrayElement. destruct arr as [ | y arr]; [discriminate |].
  intros H. apply bind_Ok in H as (k & w1 & _ & H).
  destruct (nth_error (y :: arr) (Z.to_nat k)) as [z | ] eqn:E; [ | discriminate].
  apply ret_Ok in H as [-> _]. eapply nth_error_In; eauto.
Qed.

Lemma arrayElement_frame {A} (arr : list A) : db_frame (arrayElement arr).
Proof.
  unfold arrayElement. destruct arr; [apply db_frame_throw |].
  apply db_frame_bind; [apply db_frame_with_rng |].
  intros k. destruct (nth_error _ _); [apply db_frame_ret | apply db_frame_throw].
Qed.

Lemma arrayElement_no_timeout {A} (arr : list A) : no_timeout (arrayElement arr).
Proof.
  unfold arrayElement. destruct arr; [apply no_timeout_throw |].
  apply no_timeout_bind; [apply no_timeout_with_rng |].
  intros k. destruct (nth_error _ _); [apply no_timeout_ret | apply no_timeout_throw].
Qed.

(** ** Generation *)

Lemma genUsers_spec fuel n w users w' :
  n <> PosInf -> (iterations n < fuel)%nat ->
  genUsers fuel n w = (Ok users, w') ->
  length users = iterations n /\ Forall user_inv users.
Proof.
  intros Hn Hf H. unfold genUsers in H. rewrite for_lt_rounds in H by assumption.
  apply (iterM_inv (fun j us => length us = j /\ Forall user_inv us)) with (j := 0%nat) in H.
  - exact H.
  - intros j us w1 us' w1' [Hl Ha] Hb. inv_M. rewrite length_app. simpl.
    split; [lia |]. apply Forall_app. split; [assumption |].
    constructor; [ | constructor]. eapply makeFakeUser_inv; eauto.
  - split; [reflexivity | constructor].
Qed.

Lemma genAlbums_spec fuel n art albums w albums' w' :
  n <> PosInf -> (iterations n < fuel)%nat ->
  genAlbums fuel n art albums w = (Ok albums', w') ->
  length albums' = (length albums + iterations n)%nat.
Proof.
  intros Hn Hf H. unfold genAlbums in H. rewrite for_lt_rounds in H by assumption.
  apply (iterM_inv (fun j als => length als = (length albums + j)%nat))
    with (j := 0%nat) in H.
  - exact H.
  - intros j als w1 als' w1' Hl Hb. inv_M. rewrite length_app. simpl. lia.
  - lia.
Qed.

Lemma genArtists_spec fuel n per w artists albums w' :
  n <> PosInf -> (iterations n < fuel)%nat ->
  per <> PosInf -> (iterations per < fuel)%nat ->
  genArtists fuel n per w = (Ok (artists, albums), w') ->
  length artists = iterations n /\
  length albums = (iterations n * iterations per)%nat.
Proof.
  intros Hn Hf Hp Hfp H. unfold genArtists in H.
  rewrite for_lt_rounds in H by assumption.
  apply (iterM_inv (fun j st => length (fst st) = j /\
                                length (snd st) = (j * iterations per)%nat))
    with (j := 0%nat) in H.
  - exact H.
  - intros j st w1 st' w1' [Hl Ha] Hb. inv_M. simpl.
    match goal with
    | Hg : genAlbums _ _ _ _ _ = _ |- _ => apply genAlbums_spec in Hg; try assumption
    end.
    rewrite length_app. simpl. split; lia.
  - split; reflexivity.
Qed.

Lemma genUserReviews_spec fuel n albums u reviews w reviews' w' :
  n <> PosInf -> (iterations n < fuel)%nat ->
  genUserReviews fuel n albums u reviews w = (Ok reviews', w') ->
  exists new, reviews' = reviews ++ new /\
              length new = iterations n /\
              Forall (review_of u albums) new.
Proof.
  intros Hn Hf H. unfold genUserReviews in H.
  rewrite for_lt_rounds in H by assumption.
  apply (iterM_inv (fun j rs => exists new, rs = reviews ++ new /\ length new = j /\
                                            Forall (review_of u albums) new))
    with (j := 0%nat) in H.
  - exact H.
  - intros j rs w1 rs' w1' (new & -> & Hl & Ha) Hb. inv_M.
    exists (new ++ [a0]). rewrite app_assoc, length_app. simpl.
    split; [reflexivity |]. split; [lia |].
    apply Forall_app. split; [assumption |]. constructor; [ | constructor].
    match goal with
    | Hr : makeFakeReview _ _ _ = _ |- _ => apply makeFakeReview_ids in Hr as [Hu Hal]
    end.
    split; [assumption |]. exists a. split; [ | assumption].
    eapply arrayElement_In; eauto.
  - exists []. rewrite app_nil_r. repeat split. constructor.
Qed.

Lemma genReviews_spec fuel n users albums w reviews w' :
  n <> PosInf -> (iterations n < fuel)%nat ->
  genReviews fuel n users albums w = (Ok reviews, w') ->
  length reviews = (length users * iterations n)%nat /\
  Forall (review_in users albums) reviews.
Proof.
  intros Hn Hf H. unfold genReviews in H.
  apply (for_of_inv
           (fun seen rs _ => length rs = (length seen * iterations n)%nat /\
                             Forall (review_in seen albums) rs))
    with (seen := []) in H.
  - exact H.
  - intros seen x rs w1 rs' w1' [Hl Ha] Hb.
    apply genUserReviews_spec in Hb as (new & -> & Hln & Hnew); try assumption.
    rewrite !length_app. simpl. split; [lia |].
    apply Forall_app. split.
    + eapply Forall_impl; [exact Ha |].
      intros rv (u0 & Hin & Hrv). exists u0. split; [ | assumption].
      apply in_or_app. left. assumption.
    + eapply Forall_impl; [exact Hnew |].
      intros rv Hrv. exists x. split; [ | assumption].
      apply in_or_app. right. left. reflexivity.
  - split; [reflexivity | constructor].
Qed.

Lemma counts_capped req :
  (usersCount req <> PosInf /\ (iterations (usersCount req) <= 500)%nat) /\
  (artistsCount req <> PosInf /\ (iterations (artistsCount req) <= 200)%nat) /\
  (albumsPerArtist req <> PosInf /\ (iterations (albumsPerArtist req) <= 20)%nat) /\
  (reviewsPerUser req <> PosInf /\ (iterations (reviewsPerUser req) <= 20)%nat).
Proof.
  unfold usersCount, artistsCount, albumsPerArtist, reviewsPerUser.
  repeat split;
    match goal with
    | |- Math_min ?x (of_Z ?c) <> PosInf => apply (Math_min_cap x c)
    | |- (iterations (Math_min ?x (of_Z ?c)) <= _)%nat =>
        pose proof (proj2 (Math_min_cap x c)); lia
    end.
Qed.

Lemma generate_frame fuel req : db_frame (generate fuel req).
Proof.
  unfold generate, genUsers, genArtists, genReviews, genAlbums, genUserReviews.
  apply db_frame_bind.
  { apply for_lt_db_frame. intros s.
    apply db_frame_bind; [apply makeFakeUser_frame | intros; apply db_frame_ret]. }
  intros users. apply db_frame_bind.
  { apply for_lt_db_frame. intros s. apply db_frame_bind; [apply makeFakeArtist_frame |].
    intros art. apply db_frame_bind; [ | intros; apply db_frame_ret].
    apply for_lt_db_frame. intros s'. apply db_frame_bind; [apply makeFakeAlbum_frame |].
    intros; apply db_frame_ret. }
  intros aa. apply db_frame_bind; [ | intros; apply db_frame_ret].
  apply for_of_db_frame. intros u rs. apply for_lt_db_frame. intros rs'.
  apply db_frame_bind; [apply arrayElement_frame |].
  intros al. apply db_frame_bind; [apply makeFakeReview_frame |].
  intros; apply db_frame_ret.
Qed.

Lemma generate_no_timeout fuel req : (500 < fuel)%nat -> no_timeout (generate fuel req).
Proof.
  intros Hf. destruct (counts_capped req) as ((Hu & Hu') & (Ha & Ha') & (Hp & Hp') & (Hr & Hr')).
  unfold generate, genUsers, genArtists, genReviews, genAlbums, genUserReviews.
  apply no_timeout_bind.
  { apply for_lt_no_timeout; [assumption | lia |]. intros s.
    apply no_timeout_bind; [apply makeFakeUser_no_timeout | intros; apply no_timeout_ret]. }
  intros users. apply no_timeout_bind.
  { apply for_lt_no_timeout; [assumption | lia |]. intros s.
    apply no_timeout_bind; [apply makeFakeArtist_no_timeout |].
    intros art. apply no_timeout_bind; [ | intros; apply no_timeout_ret].
    apply for_lt_no_timeout; [assumption | lia |]. intros s'.
    apply no_timeout_bind; [apply makeFakeAlbum_no_timeout | intros; apply no_timeout_ret]. }
  intros aa. apply no_timeout_bind; [ | intros; apply no_timeout_ret].
  apply for_of_no_timeout. intros u rs.
  apply for_lt_no_timeout; [assumption | lia |]. intros rs'.
  apply no_timeout_bind; [apply arrayElement_no_timeout |].
  intros al. apply no_timeout_bind; [apply makeFakeReview_no_timeout |].
  intros; apply no_timeout_ret.
Qed.

(** What a successful generation phase has produced. *)
Lemma generate_spec fuel req w users artists albums reviews w' :
  (500 < fuel)%nat ->
  generate fuel req w = (Ok (users, artists, albums, reviews), w') ->
  length users = iterations (usersCount req) /\
  length artists = iterations (artistsCount req) /\
  length albums = (iterations (artistsCount req) * iterations (albumsPerArtist req))%nat /\
  length reviews = (iterations (usersCount req) * iterations (reviewsPerUser req))%nat /\
  Forall user_inv users /\
  Forall (review_in users albums) reviews /\
  w_db w' = w_db w.
Proof.
  intros Hf H.
  destruct (counts_capped req) as ((Hu & Hu') & (Ha & Ha') & (Hp & Hp') & (Hr & Hr')).
  pose proof (generate_frame fuel req w) as Hfr. rewrite H in Hfr. simpl in Hfr.
  unfold generate in H. inv_M.
  match goal with
  | Hx : ret _ _ = _ |- _ => apply ret_Ok in Hx as [Hx _]; inversion Hx; subst; clear Hx
  | Hx : (_, _, _, _) = (_, _, _, _) |- _ => inversion Hx; subst; clear Hx
  | _ => idtac
  end.
  repeat match goal with
    | Hx : genUsers _ _ _ = _ |- _ => apply genUsers_spec in Hx as [? ?]; [ | assumption | lia]
    | Hx : genArtists _ _ _ _ = (Ok ?p, _) |- _ =>
        destruct p; apply genArtists_spec in Hx as [? ?]; [ | assumption | lia | assumption | lia]
    | Hx : genReviews _ _ _ _ _ = _ |- _ =>
        apply genReviews_spec in Hx as [? ?]; [ | assumption | lia]
    end.
  simpl in *. repeat split; try assumption; congruence.
Qed.

(** ** Building and committing the writes *)

Lemma doc_Ok coll id w r w' :
  doc coll id w = (Ok r, w') -> r = mkRef coll (inl id) /\ w' = w.
Proof.
  unfold doc. destruct (String.eqb id ""); [discriminate |].
  intros H. apply ret_Ok in H. exact H.
Qed.

Lemma doc_auto_Ok coll w r w' :
  doc_auto coll w = (Ok r, w') -> ref_collection r = coll /\ calls w' = calls w.
Proof.
  unfold doc_auto, with_db, calls. intros H. inversion H; subst. simpl. auto.
Qed.

Lemma doc_no_timeout coll id : no_timeout (doc coll id).
Proof.
  unfold doc. destruct (String.eqb id ""); [apply no_timeout_throw | apply no_timeout_ret].
Qed.

Lemma push_ops_spec {A} (mkref : A -> M DocRef) (payload : A -> Payload)
    (coll : string) (c0 : list GatewayCall) :
  (forall x w r w', mkref x w = (Ok r, w') ->
                    ref_collection r = coll /\ calls w' = calls w) ->
  forall l ops w ops' w',
    calls w = c0 ->
    for_of l (push_op mkref payload) ops w = (Ok ops', w') ->
    calls w' = c0 /\ exists new, ops' = ops ++ new /\ written coll payload l new.
Proof.
  intros Hmk l ops w ops' w' Hc H.
  apply (for_of_inv
           (fun seen s w => calls w = c0 /\
                            exists new, s = ops ++ new /\ written coll payload seen new))
    with (seen := []) in H.
  - exact H.
  - intros seen x s w1 s' w1' (Hc1 & new & -> & Hw) Hb.
    unfold push_op in Hb. apply bind_Ok in Hb as (r & w2 & Hr & Hb).
    apply ret_Ok in Hb as [-> ->]. apply Hmk in Hr as [Hcoll Hcalls].
    split; [congruence |]. exists (new ++ [mkOp r (payload x)]).
    split; [rewrite app_assoc; reflexivity |].
    apply Forall2_app; [exact Hw |]. constructor; [ | constructor]. simpl. auto.
  - split; [assumption |]. exists []. rewrite app_nil_r. split; [reflexivity | constructor].
Qed.

Lemma push_ops_no_timeout {A} (mkref : A -> M DocRef) (payload : A -> Payload) l ops :
  (forall x, no_timeout (mkref x)) -> no_timeout (for_of l (push_op mkref payload) ops).
Proof.
  intros Hmk. apply for_of_no_timeout. intros x s. unfold push_op.
  apply no_timeout_bind; [apply Hmk | intros; apply no_timeout_ret].
Qed.

Lemma buildOps_spec users artists albums reviews w ops w' :
  buildOps users artists albums reviews w = (Ok ops, w') ->
  calls w' = calls w /\
  exists o1 o2 o3 o4,
    ops = o1 ++ o2 ++ o3 ++ o4 /\
    written "users" userPayload users o1 /\
    written "artists" artistPayload artists o2 /\
    written "albums" albumPayload albums o3 /\
    written "reviews" reviewPayload reviews o4.
Proof.
  unfold buildOps. intros H.
  apply bind_Ok in H as (a1 & w1 & H1 & H).
  apply bind_Ok in H as (a2 & w2 & H2 & H).
  apply bind_Ok in H as (a3 & w3 & H3 & H4).
  eapply (push_ops_spec _ _ "users" (calls w)) in H1 as (C1 & o1 & E1 & W1);
    [ | intros x v r v' Hd; apply doc_Ok in Hd as [-> ->]; auto | reflexivity].
  eapply (push_ops_spec _ _ "artists" (calls w)) in H2 as (C2 & o2 & E2 & W2);
    [ | intros x v r v' Hd; apply doc_Ok in Hd as [-> ->]; auto | assumption].
  eapply (push_ops_spec _ _ "albums" (calls w)) in H3 as (C3 & o3 & E3 & W3);
    [ | intros x v r v' Hd; apply doc_Ok in Hd as [-> ->]; auto | assumption].
  eapply (push_ops_spec _ _ "reviews" (calls w)) in H4 as (C4 & o4 & E4 & W4);
    [ | intros x v r v' Hd; apply doc_auto_Ok in Hd; auto | assumption].
  split; [assumption |]. exists o1, o2, o3, o4. subst. simpl.
  rewrite <- !app_assoc. auto.
Qed.

Lemma buildOps_no_timeout users artists albums reviews :
  no_timeout (buildOps users artists albums reviews).
Proof.
  unfold buildOps.
  repeat (apply no_timeout_bind;
          [apply push_ops_no_timeout; intros; apply doc_no_timeout | intros ?]).
  apply push_ops_no_timeout. intros. apply no_timeout_with_db.
Qed.

Lemma batch_commit_Ok batch w :
  exists w', batch_commit batch w = (Ok tt, w') /\
             calls w' = calls w ++ [BatchCommit batch].
Proof.
  unfold batch_commit, with_db, calls. simpl. eexists. split; reflexivity.
Qed.

Lemma batch_set_Ok batch op w b w' :
  batch_set batch op w = (Ok b, w') -> b = batch ++ [op] /\ w' = w.
Proof.
  unfold batch_set. destruct (payload_storable (op_data op)); [ | discriminate].
  apply ret_Ok.
Qed.

Lemma batch_set_no_timeout batch op : no_timeout (batch_set batch op).
Proof.
  unfold batch_set. destruct (payload_storable (op_data op));
    [apply no_timeout_ret | apply no_timeout_throw].
Qed.

(** The batching loop: the commits it issues cut [batch ++ ops] into
    full batches and a last, non-empty one. *)
Lemma commitLoop_Ok ops : forall batch count w w',
  count = length batch -> (count < BATCH_SIZE)%nat ->
  commitLoop ops batch count w = (Ok tt, w') ->
  exists bs,
    calls w' = calls w ++ map BatchCommit bs /\
    concat bs = batch ++ ops /\
    batches_ok bs.
Proof.
  induction ops as [ | op rest IH]; intros batch count w w' Hc Hlt H; cbn [commitLoop] in H.
  - destruct (0 <? count)%nat eqn:E.
    + apply Nat.ltb_lt in E.
      destruct (batch_commit_Ok batch w) as (w1 & Hb & Hcalls).
      rewrite Hb in H. inversion H; subst w1.
      exists [batch]. simpl. rewrite !app_nil_r.
      repeat split; try assumption; lia.
    + apply Nat.ltb_ge in E. apply ret_Ok in H as [_ ->]. exists []. simpl.
      assert (batch = []) by (destruct batch; simpl in *; [reflexivity | lia]).
      subst. rewrite app_nil_r. repeat split.
  - apply bind_Ok in H as (b & w0 & Hset & H).
    apply batch_set_Ok in Hset as [-> ->].
    destruct (BATCH_SIZE <=? S count)%nat eqn:E.
    + apply Nat.leb_le in E.
      apply bind_Ok in H as ([] & w1 & Hb & H).
      destruct (batch_commit_Ok (batch ++ [op]) w) as (w1' & Hb' & Hcalls).
      rewrite Hb' in Hb. inversion Hb; subst w1'.
      destruct (IH [] 0%nat w1 w' eq_refl) as (bs & Hc' & Hcat & Hok);
        [unfold BATCH_SIZE; lia | exact H |].
      exists ((batch ++ [op]) :: bs).
      split; [rewrite Hc', Hcalls, <- app_assoc; reflexivity |].
      split; [simpl; rewrite Hcat, <- app_assoc; reflexivity |].
      assert (Hlen : length (batch ++ [op]) = BATCH_SIZE)
        by (rewrite length_app; simpl; lia).
      simpl. destruct bs; [lia | split; assumption].
    + apply Nat.leb_gt in E.
      destruct (IH (batch ++ [op]) (S count) w w') as (bs & Hc' & Hcat & Hok);
        [rewrite length_app; simpl; lia | assumption | exact H |].
      exists bs. split; [assumption |].
      split; [rewrite Hcat, <- app_assoc; reflexivity | assumption].
Qed.

Lemma commitBatchOps_Ok ops w w' :
  commitBatchOps ops w = (Ok tt, w') ->
  exists bs,
    calls w' = calls w ++ map BatchCommit bs /\
    concat bs = ops /\
    batches_ok bs.
Proof.
  unfold commitBatchOps. intros H.
  apply (commitLoop_Ok ops [] 0%nat w w' eq_refl); [unfold BATCH_SIZE; lia | exact H].
Qed.

Lemma commitLoop_no_timeout ops : forall batch count, no_timeout (commitLoop ops batch count).
Proof.
  induction ops as [ | op rest IH]; intros batch count; cbn [commitLoop].
  - destruct (0 <? count)%nat; [apply no_timeout_with_db | apply no_timeout_ret].
  - apply no_timeout_bind; [apply batch_set_no_timeout |]. intros b.
    destruct (BATCH_SIZE <=? S count)%nat; [ | apply IH].
    apply no_timeout_bind; [apply no_timeout_with_db | intros; apply IH].
Qed.



(** ** The seed handler as a whole *)

Lemma commitBatchOps_no_timeout ops : no_timeout (commitBatchOps ops).
Proof. apply commitLoop_no_timeout. Qed.

Lemma seedBody_no_timeout fuel req : (500 < fuel)%nat -> no_timeout (seedBody fuel req).
Proof.
  intros Hf. unfold seedBody. destruct (key_rejected (seed_key req)).
  - apply no_timeout_ret.
  - apply no_timeout_bind; [apply generate_no_timeout; assumption |].
    intros [[[users artists] albums] reviews].
    apply no_timeout_bind; [apply buildOps_no_timeout |]. intros ops.
    apply no_timeout_bind; [apply commitBatchOps_no_timeout |]. intros _.
    apply no_timeout_ret.
Qed.

Lemma seedBody_Ok fuel req w r w' :
  (500 < fuel)%nat -> key_rejected (seed_key req) = false ->
  seedBody fuel req w = (Ok r, w') ->
  exists users artists albums reviews o1 o2 o3 o4 bs,
    seed_run req w w' r users artists albums reviews o1 o2 o3 o4 bs.
Proof.
  intros Hf K H. unfold seedBody in H. rewrite K in H.
  apply bind_Ok in H as ([[[users artists] albums] reviews] & w1 & Hgen & H).
  apply bind_Ok in H as (ops & w2 & Hops & H).
  apply bind_Ok in H as (u & w3 & Hcommit & H).
  apply ret_Ok in H as [-> ->].
  apply generate_spec in Hgen as (Lu & La & Lal & Lr & Iu & Ir & Hdb); [ | assumption].
  apply buildOps_spec in Hops as (Hc2 & o1 & o2 & o3 & o4 & -> & W1 & W2 & W3 & W4).
  destruct u.
  destruct (commitBatchOps_Ok _ _ _ Hcommit) as (bs & Hc3 & Hcat & Hok).
  exists users, artists, albums, reviews, o1, o2, o3, o4, bs.
  unfold seed_run. repeat split; try assumption.
  rewrite Hc3, Hc2. unfold calls. rewrite Hdb. reflexivity.
Qed.

(** With fuel above the largest cap the handler answers, and an answer
    200 comes from a complete run. *)
Lemma seedData_run fuel req w :
  (500 < fuel)%nat ->
  exists r w',
    seedData fuel req w = (Some r, w') /\
    (status r = 200 ->
     exists users artists albums reviews o1 o2 o3 o4 bs,
       seed_run req w w' r users artists albums reviews o1 o2 o3 o4 bs).
Proof.
  intros Hf. unfold seedData, try_catch.
  pose proof (seedBody_no_timeout fuel req Hf w) as Hnt.
  destruct (seedBody fuel req w) as [[r | e | ] w'] eqn:E.
  - exists r, w'. split; [reflexivity |]. intros Hs.
    destruct (key_rejected (seed_key req)) eqn:K.
    + unfold seedBody in E. rewrite K in E. apply ret_Ok in E as [-> _]. discriminate.
    + exact (seedBody_Ok fuel req w r w' Hf K E).
  - exists (mkResponse 500 (ErrorBody e)), w'. split; [reflexivity |].
    intros Hs. simpl in Hs. lia.
  - simpl in Hnt. congruence.
Qed.



Lemma written_In {A} coll (payload : A -> Payload) l ops op :
  written coll payload l ops -> In op ops ->
  ref_collection (op_ref op) = coll /\ exists x, In x l /\ op_data op = payload x.
Proof.
  unfold written. induction 1 as [ | x o l ops [Hc Hd] _ IH]; simpl; intros Hin.
  - contradiction.
  - destruct Hin as [<- | Hin].
    + split; [assumption |]. exists x. auto.
    + destruct (IH Hin) as [Hc' (y & Hy & Hd')]. split; [assumption |]. exists y. auto.
Qed.

(** The writes into [users] of a run are the payloads of its users. *)
Lemma user_write_of_run req w w' r users artists albums reviews o1 o2 o3 o4 bs op :
  seed_run req w w' r users artists albums reviews o1 o2 o3 o4 bs ->
  In op (concat bs) -> ref_collection (op_ref op) = "users" ->
  exists u, In u users /\ user_inv u /\ op_data op = userPayload u.
Proof.
  unfold seed_run.
  intros (_ & _ & _ & _ & _ & Iu & _ & W1 & W2 & W3 & W4 & Hcat & _) Hin Hc.
  rewrite Hcat in Hin. repeat (apply in_app_or in Hin as [Hin | Hin]).
  - destruct (written_In _ _ _ _ _ W1 Hin) as [_ (u & Hu & Hd)].
    exists u. split; [assumption |]. split; [ | assumption].
    rewrite List.Forall_forall in Iu. apply Iu. assumption.
  - destruct (written_In _ _ _ _ _ W2 Hin) as [Hc' _]. congruence.
  - destruct (written_In _ _ _ _ _ W3 Hin) as [Hc' _]. congruence.
  - destruct (written_In _ _ _ _ _ W4 Hin) as [Hc' _]. congruence.
Qed.

Lemma userPayload_lookup u :
  userPayload u !! "username" = Some (FStr (u_username u)) /\
  userPayload u !! "usernameLowercase" = Some (FStr (u_usernameLowercase u)) /\
  userPayload u !! "name" = Some (FStr (u_name u)) /\
  userPayload u !! "nameLowercase" = Some (FStr (u_nameLowercase u)) /\
  userPayload u !! "profileImageUrl" = Some (FStr (u_profileImageUrl u)) /\
  userPayload u !! "avatarUrl" = Some (FStr (u_avatarUrl u)) /\
  userPayload u !! "followers" = Some (FInt 0) /\
  userPayload u !! "followersCount" = Some (FInt 0) /\
  userPayload u !! "following" = Some (FInt 0) /\
  userPayload u !! "followingCount" = Some (FInt 0) /\
  userPayload u !! "createdAt" = Some FServerTimestamp /\
  userPayload u !! "updatedAt" = None.
Proof. repeat split; vm_compute; reflexivity. Qed.

Lemma key_rejected_iff (k : JsVal) :
  key_rejected k = true <-> (truthy k = false \/ k <> JStr SEED_KEY).
Proof.
  unfold key_rejected. rewrite orb_true_iff, negb_true_iff. split.
  - intros [H | H]; [left; assumption | right].
    intros ->. simpl in H. rewrite String.eqb_refl in H. discriminate.
  - intros [H | H]; [left; assumption | right].
    destruct k; simpl; try reflexivity.
    apply negb_true_iff. apply String.eqb_neq. congruence.
Qed.

(** ** Computations that return *)


Lemma always_ok_with_rng {A} (f : G -> A * G) : always_ok (with_rng f).
Proof.
  intros w. unfold with_rng. destruct (f (w_rng w)) as [a g]. eauto.
Qed.















(** ** What a seed run can and cannot do *)

Lemma makeFakeArtist_throws w a w' : makeFakeArtist w = (Ok a, w') -> False.
Proof.
  unfold makeFakeArtist. intros H.
  apply bind_Ok in H as (id & w1 & _ & H).
  apply bind_Ok in H as (name & w2 & _ & H).
  apply bind_Ok in H as (img & w3 & H & _). discriminate.
Qed.

Lemma makeFakeAlbum_throws art w al w' : makeFakeAlbum art w = (Ok al, w') -> False.
Proof.
  unfold makeFakeAlbum. intros H.
  apply bind_Ok in H as (id & w1 & _ & H).
  apply bind_Ok in H as (title & w2 & _ & H).
  apply bind_Ok in H as (year & w3 & _ & H).
  apply bind_Ok in H as (cover & w4 & H & _). discriminate.
Qed.

(** The artists' loop returns only when it has no round to make. *)
Lemma genArtists_Ok fuel n per w artists albums w' :
  n <> PosInf -> (iterations n < fuel)%nat ->
  genArtists fuel n per w = (Ok (artists, albums), w') ->
  iterations n = 0%nat /\ artists = [] /\ albums = [].
Proof.
  intros Hn Hf H. unfold genArtists in H. rewrite for_lt_rounds in H by assumption.
  destruct (iterations n) as [ | k]; cbn [iterM] in H.
  - apply ret_Ok in H as [H _]. inversion H. auto.
  - apply bind_Ok in H as (st & w1 & Hb & _).
    apply bind_Ok in Hb as (art & w2 & Ha & _).
    destruct (makeFakeArtist_throws _ _ _ Ha).
Qed.


(** With no album to draw, the reviews' loop returns only when it has
    no review to make. *)
Lemma genReviews_empty_pool fuel n users w reviews w' :
  n <> PosInf -> (iterations n < fuel)%nat ->
  genReviews fuel n users [] w = (Ok reviews, w') ->
  reviews = [] /\ (length users * iterations n = 0)%nat.
Proof.
  intros Hn Hf H. apply genReviews_spec in H as [Hl Ha]; try assumption.
  destruct reviews as [ | rv rest].
  - split; [reflexivity |]. simpl in Hl. lia.
  - inversion Ha as [ | ? ? (u & _ & _ & al & [] & _) _].
Qed.

(** A generation phase that returns has made users only. *)
Lemma generate_Ok fuel req w users artists albums reviews w' :
  (500 < fuel)%nat ->
  generate fuel req w = (Ok (users, artists, albums, reviews), w') ->
  iterations (artistsCount req) = 0%nat /\
  (iterations (usersCount req) * iterations (reviewsPerUser req) = 0)%nat /\
  artists = [] /\ albums = [] /\ reviews = [].
Proof.
  intros Hf H.
  destruct (counts_capped req) as ((Hu & Hu') & (Ha & Ha') & (Hp & Hp') & (Hr & Hr')).
  assert (Fu : (iterations (usersCount req) < fuel)%nat) by lia.
  assert (Fa : (iterations (artistsCount req) < fuel)%nat) by lia.
  assert (Fr : (iterations (reviewsPerUser req) < fuel)%nat) by lia.
  unfold generate in H.
  apply bind_Ok in H as (us & w1 & H1 & H).
  apply bind_Ok in H as ([ars als] & w2 & H2 & H).
  apply bind_Ok in H as (rvs & w3 & H3 & H).
  apply ret_Ok in H as [H _]. simpl in H. inversion H; subst.
  apply genUsers_spec in H1 as [Lu _]; try assumption.
  apply genArtists_Ok in H2 as (A0 & -> & ->); try assumption.
  simpl in H3. apply genReviews_empty_pool in H3 as [-> Hz]; try assumption.
  rewrite Lu in Hz. auto.
Qed.

Lemma userPayload_storable u : payload_storable (userPayload u) = true.
Proof. vm_compute. reflexivity. Qed.

(** The batching loop returns when the client accepts every write. *)
Lemma commitLoop_total ops : forall batch count w,
  Forall (fun op => payload_storable (op_data op) = true) ops ->
  exists w', commitLoop ops batch count w = (Ok tt, w').
Proof.
  induction ops as [ | op rest IH]; intros batch count w Hs; cbn [commitLoop].
  - destruct (0 <? count)%nat.
    + destruct (batch_commit_Ok batch w) as (w' & E & _). eauto.
    + eexists. reflexivity.
  - inversion Hs as [ | ? ? Hop Hrest]; subst.
    unfold bind at 1. unfold batch_set. rewrite Hop. unfold ret at 1.
    destruct (BATCH_SIZE <=? S count)%nat.
    + unfold bind. destruct (batch_commit_Ok (batch ++ [op]) w) as (w1 & E & _).
      rewrite E. apply IH. exact Hrest.
    + apply IH. exact Hrest.
Qed.

Lemma written_users_storable users ops :
  written "users" userPayload users ops ->
  Forall (fun op => payload_storable (op_data op) = true) ops.
Proof.
  unfold written. induction 1 as [ | u op l k [_ Hd] _ IH]; constructor; [ | exact IH].
  rewrite Hd. apply userPayload_storable.
Qed.

Lemma written_nil {A} coll (payload : A -> Payload) ops :
  written coll payload [] ops -> ops = [].
Proof. intros H. inversion H. reflexivity. Qed.

Lemma buildOps_users_only_frame users : db_frame (buildOps users [] [] []).
Proof.
  unfold buildOps. apply db_frame_bind.
  - apply for_of_db_frame. intros u s0. unfold push_op.
    apply db_frame_bind; [ | intros; apply db_frame_ret].
    unfold doc. destruct (String.eqb (u_id u) "");
      [apply db_frame_throw | apply db_frame_ret].
  - intros o1. simpl. frame_M.
Qed.

(** With users only, the writes are built without touching the
    database, and they are the users' writes. *)
Lemma buildOps_users_only users w ops w' :
  buildOps users [] [] [] w = (Ok ops, w') ->
  w_db w' = w_db w /\ written "users" userPayload users ops.
Proof.
  intros H. split.
  - pose proof (buildOps_users_only_frame users w) as F. rewrite H in F. exact F.
  - apply buildOps_spec in H as (_ & o1 & o2 & o3 & o4 & -> & W1 & W2 & W3 & W4).
    apply written_nil in W2, W3, W4. subst. rewrite !app_nil_r. exact W1.
Qed.

(** A seed run that fails has written nothing. *)
Lemma seedBody_throw_frame fuel req w e w' :
  (500 < fuel)%nat ->
  seedBody fuel req w = (Throw e, w') -> w_db w' = w_db w.
Proof.
  intros Hf H. unfold seedBody in H.
  destruct (key_rejected (seed_key req)); [discriminate |].
  pose proof (generate_frame fuel req w) as Hg.
  unfold bind at 1 in H.
  destruct (generate fuel req w) as [[[[[users artists] albums] reviews] | e1 | ] w1] eqn:E;
    simpl in Hg; [ | inversion H; subst; exact Hg | discriminate].
  destruct (generate_Ok _ _ _ _ _ _ _ _ Hf E) as (_ & _ & -> & -> & ->).
  pose proof (buildOps_users_only_frame users w1) as Hb.
  unfold bind at 1 in H.
  destruct (buildOps users [] [] [] w1) as [[ops | e2 | ] w2] eqn:E2;
    simpl in Hb; [ | inversion H; subst; congruence | discriminate].
  apply buildOps_users_only in E2 as [_ W].
  destruct (commitLoop_total ops [] 0%nat w2 (written_users_storable _ _ W)) as (w3 & E3).
  unfold bind in H. unfold commitBatchOps in H. rewrite E3 in H. discriminate.
Qed.

(** A seed run that answers 200 had no artist to make and no review. *)
Lemma seedBody_Ok_users_only fuel req w r w' :
  (500 < fuel)%nat -> key_rejected (seed_key req) = false ->
  seedBody fuel req w = (Ok r, w') ->
  iterations (artistsCount req) = 0%nat /\
  (iterations (usersCount req) * iterations (reviewsPerUser req) = 0)%nat.
Proof.
  intros Hf K H. unfold seedBody in H. rewrite K in H.
  apply bind_Ok in H as ([[[users artists] albums] reviews] & w1 & Hgen & _).
  destruct (generate_Ok _ _ _ _ _ _ _ _ Hf Hgen) as (A0 & Z & _). auto.
Qed.

(** The two outcomes of an authorized seed request: a failure that
    leaves the database as it was, or a run that made users only. *)
Lemma seedData_outcome fuel req w :
  (500 < fuel)%nat -> key_rejected (seed_key req) = false ->
  exists r w',
    seedData fuel req w = (Some r, w') /\
    ((status r = 500 /\ body_ok (body r) = false /\ w_db w' = w_db w) \/
     (iterations (artistsCount req) = 0%nat /\
      (iterations (usersCount req) * iterations (reviewsPerUser req) = 0)%nat /\
      exists users artists albums reviews o1 o2 o3 o4 bs,
        seed_run req w w' r users artists albums reviews o1 o2 o3 o4 bs)).
Proof.
  intros Hf K. unfold seedData, try_catch.
  pose proof (seedBody_no_timeout fuel req Hf w) as Hnt.
  destruct (seedBody fuel req w) as [[r | e | ] w'] eqn:E.
  - exists r, w'. split; [reflexivity |]. right.
    destruct (seedBody_Ok_users_only _ _ _ _ _ Hf K E) as [A0 Z].
    split; [exact A0 |]. split; [exact Z |].
    exact (seedBody_Ok fuel req w r w' Hf K E).
  - exists (mkResponse 500 (ErrorBody e)), w'. split; [reflexivity |]. left.
    simpl. repeat split. eapply seedBody_throw_frame; eauto.
  - simpl in Hnt. congruence.
Qed.


(** ** The claims about the seed endpoint and the key check *)

(** C1: for either endpoint, a request whose supplied secret is empty or
    is not the string held by the server is answered 401 with [ok: false],
    and the world, hence every stored document and the list of calls the
    gateway has received, is left exactly as it was. *)
Theorem unauthorized_request_rejected (e : Endpoint) fuel req w :
  supplied_key e req = JStr "" \/ supplied_key e req <> JStr SEED_KEY ->
  exists r,
    handle e fuel req w = (Some r, w) /\
    status r = 401 /\
    body_ok (body r) = false /\
    calls (snd (handle e fuel req w)) = calls w.
Proof.
  intros H.
  assert (K : key_rejected (supplied_key e req) = true).
  { apply key_rejected_iff. destruct H as [-> | H]; [left; reflexivity | right; assumption]. }
  exists unauthorized.
  assert (E : handle e fuel req w = (Some unauthorized, w)).
  { destruct e; simpl in K |- *.
    - unfold seedData, try_catch, seedBody. rewrite K. reflexivity.
    - unfold updateUser, try_catch, updateBody. rewrite K. reflexivity. }
  rewrite E. repeat split; reflexivity.
Qed.


(** C4: every user built by [makeFakeUser] has [usernameLowercase] equal
    to [username.toLowerCase()] and [nameLowercase] equal to
    [name.toLowerCase()], and so has every payload a successful seed run
    writes into the users collection. *)
Theorem seeded_user_lowercase_fields fuel req w :
  (500 < fuel)%nat ->
  (forall w0 u w1,
      makeFakeUser w0 = (Ok u, w1) ->
      u_usernameLowercase u = toLowerCase (u_username u) /\
      u_nameLowercase u = toLowerCase (u_name u)) /\
  exists r w',
    seedData fuel req w = (Some r, w') /\
    (status r = 200 ->
     exists bs,
       calls w' = calls w ++ map BatchCommit bs /\
       forall op,
         In op (concat bs) -> ref_collection (op_ref op) = "users" ->
         exists username name,
           op_data op !! "username" = Some (FStr username) /\
           op_data op !! "usernameLowercase" = Some (FStr (toLowerCase username)) /\
           op_data op !! "name" = Some (FStr name) /\
           op_data op !! "nameLowercase" = Some (FStr (toLowerCase name))).
Proof.
  intros Hf. split.
  { intros w0 u w1 H. apply makeFakeUser_inv in H as (H1 & H2 & _). auto. }
  destruct (seedData_run fuel req w Hf) as (r & w' & E & Hrun).
  exists r, w'. split; [exact E |]. intros Hs.
  destruct (Hrun Hs) as (users & artists & albums & reviews & o1 & o2 & o3 & o4 & bs & R).
  exists bs. split; [apply R |]. intros op Hin Hc.
  destruct (user_write_of_run _ _ _ _ _ _ _ _ _ _ _ _ _ _ R Hin Hc)
    as (u & _ & (I1 & I2 & _) & ->).
  destruct (userPayload_lookup u) as (L1 & L2 & L3 & L4 & _).
  exists (u_username u), (u_name u). rewrite L1, L2, L3, L4, I1, I2. auto.
Qed.


(** C9: the payload a successful seed run writes for a user carries the
    avatar URL under both [profileImageUrl] and [avatarUrl], the four
    counters at zero and the creation-time sentinel, but no [updatedAt]
    field at all, although [makeFakeUser] gave the user one. *)
Theorem seeded_user_payload_fields fuel req w :
  (500 < fuel)%nat ->
  (forall w0 u w1, makeFakeUser w0 = (Ok u, w1) -> u_updatedAt u = FServerTimestamp) /\
  exists r w',
    seedData fuel req w = (Some r, w') /\
    (status r = 200 ->
     exists bs,
       calls w' = calls w ++ map BatchCommit bs /\
       forall op,
         In op (concat bs) -> ref_collection (op_ref op) = "users" ->
         (exists avatar,
             op_data op !! "profileImageUrl" = Some (FStr avatar) /\
             op_data op !! "avatarUrl" = Some (FStr avatar)) /\
         op_data op !! "followers" = Some (FInt 0) /\
         op_data op !! "followersCount" = Some (FInt 0) /\
         op_data op !! "following" = Some (FInt 0) /\
         op_data op !! "followingCount" = Some (FInt 0) /\
         op_data op !! "createdAt" = Some FServerTimestamp /\
         op_data op !! "updatedAt" = None).
Proof.
  intros Hf. split.
  { intros w0 u w1 H. apply makeFakeUser_inv in H. apply H. }
  destruct (seedData_run fuel req w Hf) as (r & w' & E & Hrun).
  exists r, w'. split; [exact E |]. intros Hs.
  destruct (Hrun Hs) as (users & artists & albums & reviews & o1 & o2 & o3 & o4 & bs & R).
  exists bs. split; [apply R |]. intros op Hin Hc.
  destruct (user_write_of_run _ _ _ _ _ _ _ _ _ _ _ _ _ _ R Hin Hc)
    as (u & _ & (_ & _ & I3 & _) & ->).
  destruct (userPayload_lookup u) as (_ & _ & _ & _ & L5 & L6 & L7 & L8 & L9 & L10 & L11 & L12).
  split; [exists (u_profileImageUrl u); rewrite L5, L6, I3; auto |].
  auto 10.
Qed.

(** ** Characters of a user name *)

Lemma word_char_ascii c : is_word_char c = true -> is_ascii c = true.
Proof.
  destruct c as [[] [] [] [] [] [] [] []]; vm_compute; intros; congruence.
Qed.

Lemma lower_word_char_ascii c : is_lower_word_char c = true -> is_ascii c = true.
Proof.
  destruct c as [[] [] [] [] [] [] [] []]; vm_compute; intros; congruence.
Qed.

Lemma lower_of_word_char c :
  is_word_char c = true -> is_lower_word_char (ascii_lower c) = true.
Proof.
  destruct c as [[] [] [] [] [] [] [] []]; vm_compute; intros; congruence.
Qed.

Lemma lower_word_char_fixed c : is_lower_word_char c = true -> ascii_lower c = c.
Proof.
  destruct c as [[] [] [] [] [] [] [] []]; vm_compute; intros; congruence.
Qed.

Lemma string_forallb_impl (p q : ascii -> bool) s :
  (forall c, p c = true -> q c = true) ->
  string_forallb p s = true -> string_forallb q s = true.
Proof.
  intros Hpq. induction s as [ | c s IH]; simpl; [reflexivity |].
  rewrite !andb_true_iff. intros [Hc Hs]. auto.
Qed.

Lemma strip_non_word_class s : string_forallb is_word_char (strip_non_word s) = true.
Proof.
  unfold strip_non_word. induction s as [ | c s IH]; simpl; [reflexivity |].
  destruct (is_word_char c) eqn:E; simpl; [rewrite E |]; assumption.
Qed.

Lemma lowered_word_class s :
  string_forallb is_word_char s = true ->
  string_forallb is_lower_word_char (string_map ascii_lower s) = true.
Proof.
  induction s as [ | c s IH]; simpl; [reflexivity |].
  rewrite !andb_true_iff. intros [Hc Hs]. split; [apply lower_of_word_char |]; auto.
Qed.

Lemma lowered_fixed s :
  string_forallb is_lower_word_char s = true -> string_map ascii_lower s = s.
Proof.
  induction s as [ | c s IH]; simpl; [reflexivity |].
  rewrite andb_true_iff. intros [Hc Hs]. rewrite lower_word_char_fixed, IH; auto.
Qed.

(** C10: the user name [makeFakeUser] produces contains only lowercase
    letters, digits and underscores, and is therefore equal to its own
    [usernameLowercase]. *)
Theorem generated_username_normalised w :
  exists u w',
    makeFakeUser w = (Ok u, w') /\
    string_forallb is_lower_word_char (u_username u) = true /\
    u_username u = u_usernameLowercase u.
Proof.
  destruct (makeFakeUser_total w) as (u & w' & E). exists u, w'.
  split; [exact E |].
  apply makeFakeUser_inv in E as (H1 & _ & _ & (raw & Hraw) & _).
  assert (Hclass : string_forallb is_lower_word_char (u_username u) = true).
  { rewrite Hraw, toLowerCase_ascii.
    - apply lowered_word_class, strip_non_word_class.
    - eapply string_forallb_impl; [apply word_char_ascii | apply strip_non_word_class]. }
  split; [exact Hclass |].
  rewrite H1, toLowerCase_ascii.
  - symmetry. apply lowered_fixed. exact Hclass.
  - eapply string_forallb_impl; [apply lower_word_char_ascii | exact Hclass].
Qed.

(** ** The order in which the key is looked for *)

Lemma js_or_chain a b c d :
  js_or (js_or (js_or a b) c) d = first_truthy [a; b; c] d.
Proof.
  unfold js_or. simpl.
  destruct (truthy a) eqn:Ea; [rewrite !Ea; reflexivity |].
  destruct (truthy b) eqn:Eb; [rewrite !Eb; reflexivity |].
  destruct (truthy c) eqn:Ec; reflexivity.
Qed.

Lemma guarded_body_key (b : JsVal) d :
  js_or (js_and b (get_prop b "key")) d = js_or (opt_chain b "key") d.
Proof.
  unfold js_or, js_and.
  destruct (truthy b) eqn:E.
  - destruct b; simpl in E; try discriminate; reflexivity.
  - rewrite E. destruct b as [ | | | | s | | ]; simpl in *;
      try reflexivity; try discriminate.
    apply negb_false_iff, String.eqb_eq in E. subst s. reflexivity.
Qed.

(** C7, as the code has it: each endpoint takes the first truthy of three
    places, else the empty string; [seedData] looks in the query, then the
    [x-seed-key] header, then the body, which is the order the claim gives,
    whereas [updateUser] looks in the body first, then the query, then the
    header. *)
Theorem key_precedence_per_endpoint req :
  seed_key req =
    first_truthy [ default JUndefined (req_query req !! "key");
                   req_get req "x-seed-key";
                   opt_chain (req_body req) "key" ] (JStr "") /\
  seed_key req = spec_key req /\
  update_key req =
    first_truthy [ opt_chain (req_body req) "key";
                   default JUndefined (req_query req !! "key");
                   req_get req "x-seed-key" ] (JStr "").
Proof.
  assert (Hs : seed_key req = spec_key req).
  { unfold seed_key, spec_key. rewrite <- js_or_chain.
    set (x := js_or (get_prop (JObj (req_query req)) "key") (req_get req "x-seed-key")).
    change (js_or (default JUndefined (req_query req !! "key")) (req_get req "x-seed-key"))
      with x.
    pose proof (guarded_body_key (req_body req) (JStr "")) as Hb.
    unfold js_or in Hb |- *. destruct (truthy x); [reflexivity | exact Hb]. }
  split; [exact Hs |]. split; [exact Hs |].
  unfold update_key. apply js_or_chain.
Qed.

(** ** The effective counts *)


Lemma js_or_pair a b d : js_or (js_or a b) d = first_truthy [a; b] d.
Proof.
  unfold js_or. simpl.
  destruct (truthy a) eqn:Ea; [rewrite Ea; reflexivity |].
  destruct (truthy b); reflexivity.
Qed.


(** ** updateUser *)

Lemma payload_storable_spec (data : Payload) :
  payload_storable data = true <-> forall k f, data !! k = Some f -> storable f = true.
Proof.
  unfold payload_storable. rewrite forallb_forall. split.
  - intros H k f Hk. apply (H (k, f)). apply list_elem_of_In, elem_of_map_to_list. exact Hk.
  - intros H [k f] Hin. apply list_elem_of_In, elem_of_map_to_list in Hin. simpl. eauto.
Qed.

Lemma merge_lookup t (data : Payload) (d : Doc) k :
  merge_fields t data d !! k =
    match data !! k with
    | Some f => Some (resolve t f)
    | None => d !! k
    end.
Proof.
  unfold merge_fields. rewrite lookup_union, lookup_fmap.
  destruct (data !! k) as [f | ]; simpl; destruct (d !! k); reflexivity.
Qed.

Lemma updatePayload_lookup updates :
  (forall k, k <> "usernameLowercase" -> k <> "nameLowercase" -> k <> "updatedAt" ->
             updatePayload updates !! k = FPlain <$> spread updates !! k) /\
  updatePayload updates !! "usernameLowercase" = Some (FPlain (lowered updates "username")) /\
  updatePayload updates !! "nameLowercase" = Some (FPlain (lowered updates "name")) /\
  updatePayload updates !! "updatedAt" = Some FServerTimestamp.
Proof.
  unfold updatePayload. split; [ | split; [ | split]].
  - intros k H1 H2 H3. rewrite !lookup_insert_ne by congruence. apply lookup_fmap.
  - rewrite !lookup_insert_ne by discriminate. apply lookup_insert_eq.
  - rewrite lookup_insert_ne by discriminate. apply lookup_insert_eq.
  - apply lookup_insert_eq.
Qed.

Lemma lowered_falsy updates k :
  truthy (get_prop updates k) = false -> lowered updates k = JUndefined.
Proof. unfold lowered. intros ->. reflexivity. Qed.

(** The client refuses the object built for [update] as soon as one of
    the two lowercase fields is [undefined]. *)
Lemma updatePayload_refused updates :
  lowered updates "username" = JUndefined \/ lowered updates "name" = JUndefined ->
  payload_storable (updatePayload updates) = false.
Proof.
  intros H. destruct (payload_storable (updatePayload updates)) eqn:E; [ | reflexivity].
  rewrite payload_storable_spec in E.
  destruct (updatePayload_lookup updates) as (_ & P2 & P3 & _).
  destruct H as [H | H].
  - specialize (E _ _ P2). rewrite H in E. discriminate.
  - specialize (E _ _ P3). rewrite H in E. discriminate.
Qed.

Lemma doc_update_refused r data w :
  payload_storable data = false -> exists e, doc_update r data w = (Throw e, w).
Proof. intros H. unfold doc_update. rewrite H. simpl. eauto. Qed.

(** With an object the client refuses, the handler answers 500 and
    leaves the world as it was. *)
Lemma updateUser_refused req w :
  key_rejected (update_key req) = false ->
  bad_request (update_id req) (update_updates req) = false ->
  payload_storable (updatePayload (update_updates req)) = false ->
  exists r,
    updateUser req w = (Some r, w) /\ status r = 500 /\ body_ok (body r) = false.
Proof.
  intros K B Hp. unfold updateUser, try_catch, updateBody. rewrite K, B.
  unfold bind, doc_of, doc, throw, ret.
  destruct (update_id req) as [ | | | | s | | ];
    try (eexists; split; [reflexivity | split; reflexivity]).
  destruct (String.eqb s ""); [eexists; split; [reflexivity | split; reflexivity] |].
  destruct (doc_update_refused (mkRef "users" (inl s)) _ w Hp) as (e & E).
  rewrite E. eexists. split; [reflexivity | split; reflexivity].
Qed.

(** C5: the handler builds the object the claim describes, the supplied
    mapping with [usernameLowercase], [nameLowercase] and [updatedAt]
    overridden, a lowercase field being [undefined] when its source is
    missing or falsy.  But the client, created with its default
    settings, refuses [undefined]: whenever [updates.username] or
    [updates.name] is missing or falsy, the request is answered 500 with
    [ok: false] and the world is left exactly as it was, so that nothing
    is stored and the gateway receives no call.  That is the case of
    [{ username: "Foo" }], which has no [name]. *)
Theorem update_applies_mapping req w :
  key_rejected (update_key req) = false ->
  bad_request (update_id req) (update_updates req) = false ->
  truthy (get_prop (update_updates req) "username") = false \/
  truthy (get_prop (update_updates req) "name") = false ->
  let updates := update_updates req in
  let payload := updatePayload updates in
  (forall k, k <> "usernameLowercase" -> k <> "nameLowercase" -> k <> "updatedAt" ->
             payload !! k = FPlain <$> spread updates !! k) /\
  payload !! "usernameLowercase" = Some (FPlain (lowered updates "username")) /\
  payload !! "nameLowercase" = Some (FPlain (lowered updates "name")) /\
  payload !! "updatedAt" = Some FServerTimestamp /\
  (lowered updates "username" = JUndefined \/ lowered updates "name" = JUndefined) /\
  exists r,
    updateUser req w = (Some r, w) /\
    status r = 500 /\
    body_ok (body r) = false /\
    calls (snd (updateUser req w)) = calls w /\
    docs (snd (updateUser req w)) = docs w.
Proof.
  intros K B H updates payload.
  destruct (updatePayload_lookup updates) as (P1 & P2 & P3 & P4).
  repeat (split; [assumption |]).
  assert (Hu : lowered updates "username" = JUndefined \/
               lowered updates "name" = JUndefined).
  { destruct H as [H | H]; [left | right]; apply lowered_falsy; exact H. }
  split; [exact Hu |].
  destruct (updateUser_refused req w K B (updatePayload_refused updates Hu))
    as (r & E & Hs & Hb).
  exists r. rewrite E. simpl. auto.
Qed.

(** C6: when the id found in the request is missing (or otherwise falsy),
    or the updates are missing, or they are not an object, [updateUser]
    leaves the world as it was, so that the gateway receives no write,
    and a request that has passed the key check is answered 400 with
    [ok: false]. *)
Theorem update_bad_request_no_write req w :
  truthy (update_id req) = false \/
  truthy (update_updates req) = false \/
  typeof_object (update_updates req) = false ->
  exists r,
    updateUser req w = (Some r, w) /\
    body_ok (body r) = false /\
    calls (snd (updateUser req w)) = calls w /\
    (key_rejected (update_key req) = false -> status r = 400).
Proof.
  intros H.
  assert (B : bad_request (update_id req) (update_updates req) = true).
  { unfold bad_request. rewrite !orb_true_iff, !negb_true_iff.
    destruct H as [H | [H | H]]; auto. }
  unfold updateUser, try_catch, updateBody.
  destruct (key_rejected (update_key req)) eqn:K.
  - exists unauthorized. simpl. repeat split. discriminate.
  - rewrite B. eexists. simpl. repeat split.
Qed.

(** ** Beyond the claims: the key check *)

Lemma key_accepted_iff (k : JsVal) :
  key_rejected k = false <-> (k = JStr SEED_KEY /\ SEED_KEY <> "").
Proof.
  unfold key_rejected. rewrite orb_false_iff, negb_false_iff. split.
  - intros [Ht Hs]. destruct k as [ | | | | t | | ]; simpl in Hs; try discriminate.
    apply negb_false_iff, String.eqb_eq in Hs. subst t. split; [reflexivity |].
    intros He. rewrite He in Ht. simpl in Ht. discriminate.
  - intros [-> Hne]. simpl. rewrite String.eqb_refl. split; [ | reflexivity].
    apply negb_true_iff, String.eqb_neq. exact Hne.
Qed.

Lemma doc_update_no_timeout r data : no_timeout (doc_update r data).
Proof.
  intros w. unfold doc_update.
  destruct (payload_storable data); simpl; [ | discriminate].
  destruct (update_paths data) as [ps | ]; [ | simpl; discriminate].
  destruct (conflicting ps); [simpl; discriminate |].
  destruct (fs_docs (w_db w) !! ref_path r); simpl; discriminate.
Qed.

Lemma updateBody_no_timeout req : no_timeout (updateBody req).
Proof.
  unfold updateBody. destruct (key_rejected (update_key req)); [apply no_timeout_ret |].
  destruct (bad_request _ _); [apply no_timeout_ret |].
  apply no_timeout_bind.
  { unfold doc_of. destruct (update_id req); try apply no_timeout_throw. apply doc_no_timeout. }
  intros r. apply no_timeout_bind; [apply doc_update_no_timeout |].
  intros _. apply no_timeout_bind; [ | intros; apply no_timeout_ret].
  intros w. unfold doc_get. simpl. discriminate.
Qed.

(** X1: the only value that passes the key check is the server's string
    itself, which must not be empty; a request supplying it is never
    answered 401: [seedData] answers 200 or 500, [updateUser] 200, 400 or
    500. *)
Theorem exact_key_is_accepted (e : Endpoint) fuel req w :
  (500 < fuel)%nat ->
  SEED_KEY <> "" ->
  supplied_key e req = JStr SEED_KEY ->
  (forall k, key_rejected k = false <-> (k = JStr SEED_KEY /\ SEED_KEY <> "")) /\
  exists r w',
    handle e fuel req w = (Some r, w') /\
    (status r = 200 \/ status r = 400 \/ status r = 500).
Proof.
  intros Hf Hne Hk. split; [exact key_accepted_iff |].
  assert (K : key_rejected (supplied_key e req) = false)
    by (apply key_accepted_iff; auto).
  destruct e; simpl in K |- *.
  - unfold seedData, try_catch.
    pose proof (seedBody_no_timeout fuel req Hf w) as Hnt.
    destruct (seedBody fuel req w) as [[r | err | ] w'] eqn:E.
    + exists r, w'. split; [reflexivity |]. left.
      destruct (seedBody_Ok fuel req w r w' Hf K E)
        as (us & ars & als & rvs & o1 & o2 & o3 & o4 & bs & R).
      unfold seed_run in R. decompose [and] R. subst r. reflexivity.
    + eexists. exists w'. split; [reflexivity |]. right; right. reflexivity.
    + simpl in Hnt. congruence.
  - unfold updateUser, try_catch.
    pose proof (updateBody_no_timeout req w) as Hnt.
    destruct (updateBody req w) as [[r | err | ] w'] eqn:E.
    + exists r, w'. split; [reflexivity |].
      unfold updateBody in E. rewrite K in E.
      destruct (bad_request (update_id req) (update_updates req)).
      * apply ret_Ok in E as [-> _]. right; left. reflexivity.
      * inv_M. left. reflexivity.
    + eexists. exists w'. split; [reflexivity |]. right; right. reflexivity.
    + simpl in Hnt. congruence.
Qed.

Lemma seed_key_chain req :
  seed_key req =
    first_truthy [query_of req "key"; req_get req "x-seed-key";
                  opt_chain (req_body req) "key"] (JStr "").
Proof.
  unfold seed_key, query_of. rewrite <- js_or_chain.
  pose proof (guarded_body_key (req_body req) (JStr "")) as Hb.
  unfold js_or in Hb |- *.
  destruct (truthy (if truthy (get_prop (JObj (req_query req)) "key")
                    then get_prop (JObj (req_query req)) "key"
                    else req_get req "x-seed-key")); [reflexivity | exact Hb].
Qed.

(** X2: the two endpoints compare the same key whenever the body
    carries no key, or the body's key is the only one supplied; they can
    differ only when a key in the body meets another in the query or the
    header. *)
Theorem endpoints_agree_on_key req :
  truthy (opt_chain (req_body req) "key") = false \/
  (truthy (query_of req "key") = false /\ truthy (req_get req "x-seed-key") = false) ->
  seed_key req = update_key req.
Proof.
  intros H. rewrite seed_key_chain. unfold update_key. rewrite js_or_chain.
  change (opt_chain (JObj (req_query req)) "key") with (query_of req "key").
  simpl. destruct H as [Hb | [Hq Hh]].
  - rewrite Hb. reflexivity.
  - rewrite Hq, Hh. destruct (truthy (opt_chain (req_body req) "key")); reflexivity.
Qed.

Lemma js_and_falsy_or_second a b :
  truthy (js_and a b) = true -> js_and a b = b.
Proof.
  unfold js_and. destruct (truthy a) eqn:E; [reflexivity |]. intros H. congruence.
Qed.

(** X3: the secret resolved at start-up is never falsy: it is the
    configured [seed.key] when that is truthy, else the environment's
    [SEED_KEY] when that is truthy, else "dev-seed-key"; when it is a
    string it is not the empty string; with neither a configuration nor
    an environment value it is the development default, and a
    configured non-empty [seed.key] wins over the environment. *)
Theorem seed_key_resolution config env :
  truthy (resolve_seed_key config env) = true /\
  resolve_seed_key config env = first_truthy [config_key config; env] (JStr "dev-seed-key") /\
  (forall s, resolve_seed_key config env = JStr s -> s <> "") /\
  (truthy (config_key config) = false -> truthy env = false ->
   resolve_seed_key config env = JStr "dev-seed-key") /\
  (truthy (config_key config) = true -> resolve_seed_key config env = config_key config) /\
  (forall cfg sd s,
      config = Some cfg -> cfg !! "seed" = Some (JObj sd) ->
      sd !! "key" = Some (JStr s) -> s <> "" ->
      resolve_seed_key config env = JStr s).
Proof.
  assert (Ht : truthy (resolve_seed_key config env) = true).
  { unfold resolve_seed_key, js_or.
    destruct (truthy (config_key config)) eqn:E1; [rewrite E1; exact E1 |].
    destruct (truthy env) eqn:E2; [exact E2 | reflexivity]. }
  split; [exact Ht |]. split; [apply js_or_pair |].
  split.
  { intros s Hs He. subst s. rewrite Hs in Ht. simpl in Ht. discriminate. }
  unfold resolve_seed_key, js_or. repeat split.
  - intros E1 E2. rewrite E1, E2. reflexivity.
  - intros E1. rewrite E1, E1. reflexivity.
  - intros cfg sd s -> Hseed Hkey Hne. simpl. rewrite Hseed. simpl. rewrite Hkey. simpl.
    destruct (String.eqb s "") eqn:E; [apply String.eqb_eq in E; contradiction |].
    simpl. rewrite E. reflexivity.
Qed.


(** ** Beyond the claims: when a seed run succeeds *)


(** X5: an authorized request that asks for reviews while no album is
    generated (no artist, or no album per artist, with at least one user
    and one review per user) is answered 500 with [ok: false], and the
    database is left as it was: the failure comes before any write. *)
Theorem seed_without_albums_fails fuel req w :
  (500 < fuel)%nat ->
  key_rejected (seed_key req) = false ->
  iterations (artistsCount req) = 0%nat \/ iterations (albumsPerArtist req) = 0%nat ->
  (1 <= iterations (usersCount req))%nat ->
  (1 <= iterations (reviewsPerUser req))%nat ->
  exists r w',
    seedData fuel req w = (Some r, w') /\
    status r = 500 /\
    body_ok (body r) = false /\
    w_db w' = w_db w.
Proof.
  intros Hf K _ HU HR.
  destruct (seedData_outcome fuel req w Hf K) as (r & w' & E & Hout).
  exists r, w'. split; [exact E |].
  destruct Hout as [H | (_ & Z & _)]; [exact H | nia].
Qed.


(** ** Beyond the claims: what is written, and where *)

Lemma Forall2_In_r {A B} (R : A -> B -> Prop) l k y :
  Forall2 R l k -> In y k -> exists x, In x l /\ R x y.
Proof.
  induction 1 as [ | x z l k Hxz _ IH]; simpl; intros Hin; [contradiction |].
  destruct Hin as [<- | Hin].
  - exists x. auto.
  - destruct (IH Hin) as (x' & Hx' & Hr). exists x'. auto.
Qed.

Lemma Forall2_In_l {A B} (R : A -> B -> Prop) l k x :
  Forall2 R l k -> In x l -> exists y, In y k /\ R x y.
Proof.
  induction 1 as [ | z y l k Hzy _ IH]; simpl; intros Hin; [contradiction |].
  destruct Hin as [<- | Hin].
  - exists y. auto.
  - destruct (IH Hin) as (y' & Hy' & Hr). exists y'. auto.
Qed.

(** The writes a loop pushes, with what is known of each reference. *)
Lemma push_ops_rel {A} (mkref : A -> M DocRef) (payload : A -> Payload)
    (R : A -> DocRef -> Prop) :
  (forall x w r w', mkref x w = (Ok r, w') -> R x r) ->
  forall l ops w ops' w',
    for_of l (push_op mkref payload) ops w = (Ok ops', w') ->
    exists new, ops' = ops ++ new /\
                Forall2 (fun x op => R x (op_ref op) /\ op_data op = payload x) l new.
Proof.
  intros Hmk l ops w ops' w' H.
  apply (for_of_inv
           (fun seen s _ =>
              exists new, s = ops ++ new /\
                Forall2 (fun x op => R x (op_ref op) /\ op_data op = payload x) seen new))
    with (seen := []) in H.
  - exact H.
  - intros seen x s w1 s' w1' (new & -> & Hw) Hb.
    unfold push_op in Hb. apply bind_Ok in Hb as (r & w2 & Hr & Hb).
    apply ret_Ok in Hb as [-> ->]. apply Hmk in Hr.
    exists (new ++ [mkOp r (payload x)]). split; [rewrite app_assoc; reflexivity |].
    apply Forall2_app; [exact Hw |]. constructor; [ | constructor]. simpl. auto.
  - exists []. rewrite app_nil_r. split; [reflexivity | constructor].
Qed.

Lemma buildOps_refs users artists albums reviews w ops w' :
  buildOps users artists albums reviews w = (Ok ops, w') ->
  (forall op, In op ops -> write_of users artists albums reviews op) /\
  (forall a, In a artists ->
             exists op, In op ops /\ op_ref op = artist_ref a /\ op_data op = artistPayload a).
Proof.
  unfold buildOps. intros H.
  apply bind_Ok in H as (a1 & w1 & H1 & H).
  apply bind_Ok in H as (a2 & w2 & H2 & H).
  apply bind_Ok in H as (a3 & w3 & H3 & H4).
  apply (push_ops_rel _ _ (fun u r => r = user_ref u)) in H1 as (o1 & E1 & W1);
    [ | intros x v r v' Hd; apply doc_Ok in Hd as [-> _]; reflexivity].
  apply (push_ops_rel _ _ (fun a r => r = artist_ref a)) in H2 as (o2 & E2 & W2);
    [ | intros x v r v' Hd; apply doc_Ok in Hd as [-> _]; reflexivity].
  apply (push_ops_rel _ _ (fun al r => r = album_ref al)) in H3 as (o3 & E3 & W3);
    [ | intros x v r v' Hd; apply doc_Ok in Hd as [-> _]; reflexivity].
  apply (push_ops_rel _ _ (fun _ r => exists n, r = mkRef "reviews" (inr n)))
    in H4 as (o4 & E4 & W4);
    [ | intros x v r v' Hd; unfold doc_auto, with_db in Hd; inversion Hd; eauto].
  subst. simpl. split.
  - intros op Hin. unfold write_of.
    repeat (apply in_app_or in Hin as [Hin | Hin]).
    + destruct (Forall2_In_r _ _ _ _ W1 Hin) as (x & Hx & Hr & Hd). left. eauto.
    + destruct (Forall2_In_r _ _ _ _ W2 Hin) as (x & Hx & Hr & Hd). right; left. eauto.
    + destruct (Forall2_In_r _ _ _ _ W3 Hin) as (x & Hx & Hr & Hd). right; right; left. eauto.
    + destruct (Forall2_In_r _ _ _ _ W4 Hin) as (x & Hx & (n & Hr) & Hd).
      right; right; right. eauto.
  - intros a Hin. destruct (Forall2_In_l _ _ _ _ W2 Hin) as (op & Hop & Hr & Hd).
    exists op. split; [ | auto].
    apply in_or_app. left. apply in_or_app. left. apply in_or_app. right. exact Hop.
Qed.

(** The three phases of a run that answers 200. *)
Lemma seedData_phases fuel req w r w' :
  seedData fuel req w = (Some r, w') -> status r = 200 ->
  exists users artists albums reviews w1 ops w2,
    generate fuel req w = (Ok (users, artists, albums, reviews), w1) /\
    buildOps users artists albums reviews w1 = (Ok ops, w2) /\
    commitBatchOps ops w2 = (Ok tt, w').
Proof.
  unfold seedData, try_catch. intros H Hs.
  destruct (seedBody fuel req w) as [[r0 | e | ] w0] eqn:E; inversion H; subst.
  - unfold seedBody in E. destruct (key_rejected (seed_key req)).
    + apply ret_Ok in E as [-> _]. simpl in Hs. lia.
    + apply bind_Ok in E as ([[[users artists] albums] reviews] & w1 & Hgen & E).
      apply bind_Ok in E as (ops & w2 & Hops & E).
      apply bind_Ok in E as ([] & w3 & Hcommit & E).
      apply ret_Ok in E as [_ ->].
      exists users, artists, albums, reviews, w1, ops, w2. auto.
  - simpl in Hs. lia.
Qed.


(** What a run that answers 200 has written, write by write. *)
Lemma seedData_writes fuel req w r w' :
  (500 < fuel)%nat ->
  seedData fuel req w = (Some r, w') -> status r = 200 ->
  exists users bs,
    calls w' = calls w ++ map BatchCommit bs /\
    forall op, In op (concat bs) ->
               exists u, In u users /\ op_ref op = user_ref u /\
                         op_data op = userPayload u.
Proof.
  intros Hf H Hs.
  destruct (seedData_phases fuel req w r w' H Hs)
    as (users & artists & albums & reviews & w1 & ops & w2 & Hgen & Hops & Hcommit).
  destruct (generate_Ok _ _ _ _ _ _ _ _ Hf Hgen) as (_ & _ & -> & -> & ->).
  pose proof (generate_frame fuel req w) as Hfr. rewrite Hgen in Hfr. simpl in Hfr.
  pose proof (buildOps_spec _ _ _ _ _ _ _ Hops) as [Hc2 _].
  pose proof (buildOps_refs _ _ _ _ _ _ _ Hops) as [Hall _].
  destruct (commitBatchOps_Ok _ _ _ Hcommit) as (bs & Hc3 & Hcat & _).
  exists users, bs. split.
  - rewrite Hc3, Hc2. unfold calls. rewrite Hfr. reflexivity.
  - intros op Hin. rewrite Hcat in Hin.
    destruct (Hall op Hin) as [Hu | [(a & [] & _) | [(al & [] & _) | (rv & n & [] & _)]]].
    exact Hu.
Qed.

(** X8: every write of a seed run that answers 200 is the write of a
    user: it goes to the users collection, under the user's own id,
    which the payload repeats.  Nothing is written to artists, albums
    or reviews. *)
Theorem seeded_write_keys fuel req w r w' :
  (500 < fuel)%nat ->
  seedData fuel req w = (Some r, w') -> status r = 200 ->
  exists bs,
    calls w' = calls w ++ map BatchCommit bs /\
    forall op,
      In op (concat bs) ->
      exists id, op_ref op = mkRef "users" (inl id) /\
                 op_data op !! "id" = Some (FStr id).
Proof.
  intros Hf H Hs.
  destruct (seedData_writes fuel req w r w' Hf H Hs) as (users & bs & Hc & Hall).
  exists bs. split; [exact Hc |]. intros op Hin.
  destruct (Hall op Hin) as (u & _ & Hr & Hd).
  exists (u_id u). rewrite Hd. split; [exact Hr |]. vm_compute. reflexivity.
Qed.

(** ** Beyond the claims: what seeding leaves in the store *)

Lemma merge_keeps_fields t (data : Payload) (d : Doc) k :
  is_Some (d !! k) -> is_Some (merge_fields t data d !! k).
Proof.
  intros H. rewrite merge_lookup. destruct (data !! k) as [f | ]; [eauto | exact H].
Qed.

Lemma store_extends_refl m : store_extends m m.
Proof. intros p d H. exists d. split; [exact H | intros k Hk; exact Hk]. Qed.

Lemma store_extends_trans m1 m2 m3 :
  store_extends m1 m2 -> store_extends m2 m3 -> store_extends m1 m3.
Proof.
  intros H12 H23 p d H. destruct (H12 p d H) as (d2 & H2 & E2).
  destruct (H23 p d2 H2) as (d3 & H3 & E3). exists d3. split; [exact H3 |].
  intros k Hk. apply E3, E2, Hk.
Qed.

Lemma apply_set_extends t m op : store_extends m (apply_set t m op).
Proof.
  intros p d H. unfold apply_set.
  destruct (decide (ref_path (op_ref op) = p)) as [<- | Hne].
  - rewrite lookup_insert_eq, H. simpl. eexists. split; [reflexivity |].
    intros k. apply merge_keeps_fields.
  - rewrite lookup_insert_ne by exact Hne. exists d. split; [exact H |].
    intros k Hk. exact Hk.
Qed.

Lemma apply_set_frame t m op p :
  ref_path (op_ref op) <> p -> apply_set t m op !! p = m !! p.
Proof. intros Hne. unfold apply_set. apply lookup_insert_ne. exact Hne. Qed.

Lemma apply_set_exists t m op : is_Some (apply_set t m op !! ref_path (op_ref op)).
Proof. unfold apply_set. rewrite lookup_insert_eq. eauto. Qed.

Lemma store_extends_is_Some m m' p :
  store_extends m m' -> is_Some (m !! p) -> is_Some (m' !! p).
Proof. intros H [d Hd]. destruct (H p d Hd) as (d' & Hd' & _). eauto. Qed.

(** One commit: nothing is lost, documents that are not addressed are
    not touched, and every document addressed exists afterwards. *)
Lemma fold_apply_set t batch : forall m,
  store_extends m (fold_left (apply_set t) batch m) /\
  (forall p, ~ In p (paths batch) -> fold_left (apply_set t) batch m !! p = m !! p) /\
  (forall p, In p (paths batch) -> is_Some (fold_left (apply_set t) batch m !! p)).
Proof.
  induction batch as [ | op batch IH]; intros m; simpl.
  - split; [apply store_extends_refl |]. split; [reflexivity | contradiction].
  - destruct (IH (apply_set t m op)) as (E & F & X). split; [ | split].
    + eapply store_extends_trans; [apply apply_set_extends | exact E].
    + intros p Hp. rewrite F by (intros Hin; apply Hp; right; exact Hin).
      apply apply_set_frame. intros He. apply Hp. left. exact He.
    + intros p [<- | Hp]; [ | apply X; exact Hp].
      eapply store_extends_is_Some; [exact E | apply apply_set_exists].
Qed.

Lemma commitLoop_store ops : forall batch count w w',
  count = length batch ->
  commitLoop ops batch count w = (Ok tt, w') ->
  store_extends (docs w) (docs w') /\
  (forall p, ~ In p (paths (batch ++ ops)) -> docs w' !! p = docs w !! p) /\
  (forall p, In p (paths (batch ++ ops)) -> is_Some (docs w' !! p)).
Proof.
  induction ops as [ | op rest IH]; intros batch count w w' Hc H; cbn [commitLoop] in H.
  - rewrite app_nil_r. destruct (0 <? count)%nat eqn:E.
    + unfold batch_commit, with_db in H. inversion H; subst w'. unfold docs. simpl.
      apply fold_apply_set.
    + apply ret_Ok in H as [_ ->]. apply Nat.ltb_ge in E.
      assert (batch = []) by (destruct batch; simpl in *; [reflexivity | lia]). subst.
      split; [apply store_extends_refl |]. split; [reflexivity | contradiction].
  - replace (batch ++ op :: rest) with ((batch ++ [op]) ++ rest)
      by (rewrite <- app_assoc; reflexivity).
    apply bind_Ok in H as (b & w0 & Hset & H).
    apply batch_set_Ok in Hset as [-> ->].
    destruct (BATCH_SIZE <=? S count)%nat.
    + apply bind_Ok in H as ([] & w1 & Hb & H).
      unfold batch_commit, with_db in Hb. inversion Hb as [Hw1]. clear Hb.
      destruct (IH [] 0%nat w1 w' eq_refl H) as (E & F & X).
      destruct (fold_apply_set (fs_clock (w_db w)) (batch ++ [op]) (docs w))
        as (E0 & F0 & X0).
      assert (Hd1 : docs w1 = fold_left (apply_set (fs_clock (w_db w))) (batch ++ [op]) (docs w))
        by (rewrite <- Hw1; reflexivity).
      rewrite <- Hd1 in E0, F0, X0. unfold paths in *. rewrite map_app.
      split; [eapply store_extends_trans; eauto |]. split.
      * intros p Hp. rewrite F, F0; [reflexivity | | ]; intros Hin; apply Hp;
          apply in_or_app; auto.
      * intros p Hp. apply in_app_or in Hp as [Hp | Hp].
        -- eapply store_extends_is_Some; [exact E | apply X0; exact Hp].
        -- apply X. exact Hp.
    + apply (IH (batch ++ [op]) (S count) w w'); [ | exact H].
      rewrite length_app. simpl. lia.
Qed.

Lemma buildOps_docs users artists albums reviews w ops w' :
  buildOps users artists albums reviews w = (Ok ops, w') -> docs w' = docs w.
Proof.
  assert (Hpush : forall {A} (mkref : A -> M DocRef) payload l ops0 v ops1 v',
             (forall x u r u', mkref x u = (Ok r, u') -> docs u' = docs u) ->
             for_of l (push_op mkref payload) ops0 v = (Ok ops1, v') -> docs v' = docs v).
  { intros A mkref payload l ops0 v ops1 v' Hmk H.
    apply (for_of_inv (fun _ _ u => docs u = docs v)) with (seen := []) in H.
    - exact H.
    - intros seen x s0 u s1 u' Hu Hb. unfold push_op in Hb.
      apply bind_Ok in Hb as (r & u2 & Hr & Hb). apply ret_Ok in Hb as [_ ->].
      rewrite (Hmk _ _ _ _ Hr). exact Hu.
    - reflexivity. }
  unfold buildOps. intros H.
  apply bind_Ok in H as (a1 & w1 & H1 & H).
  apply bind_Ok in H as (a2 & w2 & H2 & H).
  apply bind_Ok in H as (a3 & w3 & H3 & H4).
  apply Hpush in H1; [ | intros x u r u' Hd; apply doc_Ok in Hd as [_ ->]; reflexivity].
  apply Hpush in H2; [ | intros x u r u' Hd; apply doc_Ok in Hd as [_ ->]; reflexivity].
  apply Hpush in H3; [ | intros x u r u' Hd; apply doc_Ok in Hd as [_ ->]; reflexivity].
  apply Hpush in H4;
    [ | intros x u r u' Hd; unfold doc_auto, with_db in Hd; inversion Hd; reflexivity].
  congruence.
Qed.

Lemma write_of_in_seed_collections users artists albums reviews op :
  write_of users artists albums reviews op ->
  In (ref_collection (op_ref op)) seed_collections.
Proof.
  unfold seed_collections.
  intros [(u & _ & Hr & _) | [(a & _ & Hr & _) | [(al & _ & Hr & _)
          | (rv & n & _ & Hr & _)]]]; rewrite Hr; simpl; auto.
Qed.

(** X13: a successful seed run only adds to the store: every document
    stored before is still stored, with all the fields it had; documents
    outside the collections users, artists, albums and reviews are not
    touched at all; and every document a write of the run addresses
    exists afterwards. *)
Theorem seed_preserves_store fuel req w r w' :
  (500 < fuel)%nat ->
  seedData fuel req w = (Some r, w') -> status r = 200 ->
  store_extends (docs w) (docs w') /\
  (forall coll key, ~ In coll seed_collections ->
                    docs w' !! (coll, key) = docs w !! (coll, key)) /\
  exists bs,
    calls w' = calls w ++ map BatchCommit bs /\
    forall op, In op (concat bs) -> is_Some (docs w' !! ref_path (op_ref op)).
Proof.
  intros Hf H Hs.
  destruct (seedData_phases fuel req w r w' H Hs)
    as (users & artists & albums & reviews & w1 & ops & w2 & Hgen & Hops & Hcommit).
  pose proof (generate_frame fuel req w) as Hfr. rewrite Hgen in Hfr. simpl in Hfr.
  pose proof (buildOps_spec _ _ _ _ _ _ _ Hops) as [Hc2 _].
  pose proof (buildOps_refs _ _ _ _ _ _ _ Hops) as [Hall _].
  pose proof (buildOps_docs _ _ _ _ _ _ _ Hops) as Hd2.
  assert (Hd : docs w2 = docs w) by (rewrite Hd2; unfold docs; rewrite Hfr; reflexivity).
  destruct (commitLoop_store ops [] 0%nat w2 w' eq_refl Hcommit) as (E & F & X).
  simpl in F, X. rewrite Hd in E, F.
  split; [exact E |]. split.
  - intros coll key Hnot. apply F. intros Hin. apply Hnot.
    unfold paths in Hin. apply in_map_iff in Hin as (op & Hp & Hop).
    pose proof (write_of_in_seed_collections _ _ _ _ _ (Hall op Hop)) as Hc.
    unfold ref_path in Hp. inversion Hp; subst. exact Hc.
  - destruct (commitBatchOps_Ok _ _ _ Hcommit) as (bs & Hc3 & Hcat & _).
    exists bs. split.
    + rewrite Hc3, Hc2. unfold calls. rewrite Hfr. reflexivity.
    + intros op Hin. rewrite Hcat in Hin. apply X. unfold paths.
      apply in_map_iff. exists op. auto.
Qed.

(** ** Beyond the claims: what an update does *)

Lemma doc_update_cases r data w :
  (exists e, doc_update r data w = (Throw e, w)) \/
  (exists e,
      docs w !! ref_path r = None /\
      doc_update r data w =
        (Throw e,
         mkWorld (w_rng w)
           {| fs_docs := fs_docs (w_db w);
              fs_calls := fs_calls (w_db w) ++ [DocUpdate r data];
              fs_clock := fs_clock (w_db w);
              fs_nextAuto := fs_nextAuto (w_db w) |})) \/
  (exists d,
      docs w !! ref_path r = Some d /\
      doc_update r data w =
        (Ok tt,
         mkWorld (w_rng w)
           {| fs_docs :=
                <[ref_path r := apply_update (fs_clock (w_db w)) data d]> (fs_docs (w_db w));
              fs_calls := fs_calls (w_db w) ++ [DocUpdate r data];
              fs_clock := S (fs_clock (w_db w));
              fs_nextAuto := fs_nextAuto (w_db w) |})).
Proof.
  unfold doc_update, docs.
  destruct (payload_storable data); simpl; [ | left; eauto].
  destruct (update_paths data) as [ps | ]; [ | left; eauto].
  destruct (conflicting ps); [left; eauto |].
  destruct (fs_docs (w_db w) !! ref_path r) as [d | ]; [right; right | right; left]; eauto.
Qed.

Lemma set_path_keeps p x (d : Doc) k :
  is_Some (d !! k) -> is_Some (set_path p x d !! k).
Proof.
  intros H. destruct p as [ | a [ | b p']]; simpl; [exact H | | ];
    apply lookup_insert_is_Some'; right; exact H.
Qed.

(** An update removes no field from the top of a document. *)
Lemma apply_update_keeps t (data : Payload) (d : Doc) k :
  is_Some (d !! k) -> is_Some (apply_update t data d !! k).
Proof.
  intros H. unfold apply_update.
  apply (map_fold_weak_ind (fun acc _ => is_Some (acc !! k))); [exact H |].
  intros i f m acc _ IH. destruct (field_path i); [apply set_path_keeps |]; exact IH.
Qed.

Lemma update_effect_refl req w : update_effect req w w.
Proof.
  unfold update_effect. split; [reflexivity |]. split; [apply store_extends_refl |].
  split; [reflexivity | lia].
Qed.

Lemma updateBody_effect req w : update_effect req w (snd (updateBody req w)).
Proof.
  unfold updateBody.
  destruct (key_rejected (update_key req)); [apply update_effect_refl |].
  destruct (bad_request (update_id req) (update_updates req)); [apply update_effect_refl |].
  unfold bind at 1. unfold doc_of.
  destruct (update_id req) as [ | | | | s | | ] eqn:Hid; try apply update_effect_refl.
  unfold doc. destruct (String.eqb s ""); [apply update_effect_refl |].
  unfold ret at 1. unfold bind at 1.
  destruct (doc_update_cases (mkRef "users" (inl s)) (updatePayload (update_updates req)) w)
    as [(e & E) | [(e & Hn & E) | (d & Hd & E)]]; rewrite E.
  - apply update_effect_refl.
  - unfold update_effect, docs, calls. simpl.
    split; [reflexivity |]. split; [apply store_extends_refl |].
    split; [reflexivity |]. rewrite length_app. simpl. lia.
  - unfold update_effect, docs, calls, ref_path in *. simpl in *.
    split; [reflexivity |]. split.
    + intros p d0 Hp. destruct (decide (("users", inl s) = p)) as [<- | Hne].
      * rewrite lookup_insert_eq. eexists. split; [reflexivity |].
        rewrite Hd in Hp. inversion Hp; subst d0.
        intros k. apply apply_update_keeps.
      * rewrite lookup_insert_ne by exact Hne. exists d0.
        split; [exact Hp | intros k Hk; exact Hk].
    + split.
      * intros p Hp. apply lookup_insert_ne. intros He. apply (Hp s Hid). congruence.
      * rewrite length_app. simpl. lia.
Qed.


Lemma updatePayload_plain updates k f :
  k <> "updatedAt" -> updatePayload updates !! k = Some f -> exists v, f = FPlain v.
Proof.
  intros Hk. unfold updatePayload. rewrite lookup_insert_ne by congruence.
  destruct (decide (k = "nameLowercase")) as [-> | H1].
  { rewrite lookup_insert_eq. intros [= <-]. eauto. }
  rewrite lookup_insert_ne by congruence.
  destruct (decide (k = "usernameLowercase")) as [-> | H2].
  { rewrite lookup_insert_eq. intros [= <-]. eauto. }
  rewrite lookup_insert_ne by congruence. rewrite lookup_fmap.
  destruct (spread updates !! k); simpl; intros [= <-]. eauto.
Qed.

(** X10: whatever the request, [updateUser] answers, and it touches at
    most the document [users/<id>] named by the request: the generator
    state is left as it was, no document disappears and none loses a
    field, every other document is stored as before, and the gateway
    receives at most one more call. *)
Theorem update_touches_one_document req w :
  exists r w',
    updateUser req w = (Some r, w') /\
    w_rng w' = w_rng w /\
    store_extends (docs w) (docs w') /\
    (forall p, (forall s, update_id req = JStr s -> p <> ("users", inl s)) ->
               docs w' !! p = docs w !! p) /\
    (length (calls w) <= length (calls w') <= S (length (calls w)))%nat.
Proof.
  pose proof (updateBody_no_timeout req w) as Hnt.
  pose proof (updateBody_effect req w) as He.
  unfold updateUser, try_catch.
  destruct (updateBody req w) as [[r | e | ] w'] eqn:E; simpl in Hnt, He.
  - exists r, w'. split; [reflexivity | exact He].
  - eexists. exists w'. split; [reflexivity | exact He].
  - congruence.
Qed.

(** *** Updates the client accepts *)

Lemma split_dots_nonempty k : split_dots k <> [].
Proof.
  destruct k as [ | c k]; simpl; [discriminate |].
  destruct (Ascii.eqb c "."); [discriminate |].
  destruct (split_dots k); discriminate.
Qed.

Lemma split_dots_single k : forall n, split_dots k = [n] -> n = k.
Proof.
  induction k as [ | c k IH]; simpl; intros n H.
  - inversion H. reflexivity.
  - destruct (Ascii.eqb c ".").
    + inversion H as [[Hn Hr]]. destruct (split_dots_nonempty k Hr).
    + destruct (split_dots k) as [ | m ms] eqn:E; [destruct (split_dots_nonempty k E) |].
      inversion H; subst. rewrite (IH m eq_refl). reflexivity.
Qed.

Lemma plain_key_path k : plain_key k = true -> field_path k = Some [k].
Proof.
  unfold plain_key, field_path. cbv zeta.
  destruct (split_dots k) as [ | n [ | n' ns]] eqn:E;
    destruct (string_forallb path_char k && _); try discriminate.
  intros _. rewrite (split_dots_single k n E). reflexivity.
Qed.

Lemma update_paths_plain (data : Payload) :
  (forall k f, data !! k = Some f -> plain_key k = true) ->
  update_paths data = Some ((fun k => [k]) <$> (map_to_list data).*1).
Proof.
  intros H. unfold update_paths.
  assert (Hl : forall kv, In kv (map_to_list data) -> field_path (fst kv) = Some [fst kv]).
  { intros [k f] Hin. apply list_elem_of_In, elem_of_map_to_list in Hin.
    apply plain_key_path. eauto. }
  induction (map_to_list data) as [ | kv l IH]; [reflexivity |].
  cbn [mapM]. rewrite Hl by (left; reflexivity).
  rewrite IH by (intros; apply Hl; right; assumption). reflexivity.
Qed.

Lemma conflicting_singletons ks :
  NoDup ks -> conflicting ((fun k => [k]) <$> ks) = false.
Proof.
  induction 1 as [ | k ks Hnin Hnd IH]; [reflexivity |].
  cbn [fmap list_fmap conflicting]. fold (@fmap list _ _ _ (fun k : string => [k]) ks).
  rewrite IH, orb_false_r.
  destruct (existsb _ _) eqn:E; [ | reflexivity].
  apply existsb_exists in E as (q & Hq & Hpre).
  apply list_elem_of_In, list_elem_of_fmap in Hq as (k' & -> & Hk').
  simpl in Hpre. rewrite !andb_true_r in Hpre.
  apply orb_true_iff in Hpre as [Hp | Hp]; apply String.eqb_eq in Hp; subst; contradiction.
Qed.

(** On keys that name top-level fields an update is a merge write. *)
Lemma apply_update_flat t (data : Payload) (d : Doc) :
  (forall k f, data !! k = Some f -> plain_key k = true) ->
  apply_update t data d = merge_fields t data d.
Proof.
  unfold apply_update, merge_fields.
  apply (map_fold_weak_ind
           (fun acc (m : Payload) =>
              (forall k f, m !! k = Some f -> plain_key k = true) ->
              acc = (resolve t <$> m) ∪ d)).
  - intros _. rewrite fmap_empty, (left_id ∅ (∪)). reflexivity.
  - intros i f m acc Hi IH Hm.
    rewrite (plain_key_path i) by (apply (Hm i f); apply lookup_insert_eq).
    cbn [set_path]. rewrite IH.
    + rewrite fmap_insert, insert_union_l. reflexivity.
    + intros k f' Hk. apply (Hm k f'). rewrite lookup_insert_ne; [exact Hk |].
      intros ->. congruence.
Qed.

Lemma flat_updates_spec updates :
  flat_updates updates = true ->
  forall k v, spread updates !! k = Some v -> plain_key k = true /\ scalar v = true.
Proof.
  unfold flat_updates. rewrite forallb_forall. intros H k v Hk.
  apply andb_true_iff. apply (H (k, v)).
  apply list_elem_of_In, elem_of_map_to_list. exact Hk.
Qed.

Lemma scalar_defined v : scalar v = true -> has_undefined v = false.
Proof. destruct v; simpl; intros H; try reflexivity; discriminate. Qed.

(** With both names given and flat updates, the object built for
    [update] is one the client accepts, on top-level fields only. *)
Lemma updatePayload_flat updates :
  flat_updates updates = true ->
  truthy (get_prop updates "username") = true ->
  truthy (get_prop updates "name") = true ->
  (forall k f, updatePayload updates !! k = Some f -> plain_key k = true) /\
  payload_storable (updatePayload updates) = true.
Proof.
  intros Hflat Hu Hn.
  destruct (updatePayload_lookup updates) as (P1 & P2 & P3 & P4).
  assert (Hcases : forall k f, updatePayload updates !! k = Some f ->
                               plain_key k = true /\ storable f = true).
  { intros k f Hk.
    destruct (decide (k = "usernameLowercase")) as [-> | N1].
    { rewrite P2 in Hk. inversion Hk; subst f. unfold lowered. rewrite Hu.
      split; reflexivity. }
    destruct (decide (k = "nameLowercase")) as [-> | N2].
    { rewrite P3 in Hk. inversion Hk; subst f. unfold lowered. rewrite Hn.
      split; reflexivity. }
    destruct (decide (k = "updatedAt")) as [-> | N3].
    { rewrite P4 in Hk. inversion Hk; subst f. split; reflexivity. }
    rewrite P1 in Hk by assumption.
    destruct (spread updates !! k) as [v | ] eqn:Ev; [ | discriminate].
    simpl in Hk. inversion Hk; subst f.
    destruct (flat_updates_spec updates Hflat k v Ev) as [Hp Hs].
    split; [exact Hp |]. simpl. rewrite (scalar_defined v Hs). reflexivity. }
  split.
  - intros k f Hk. apply (Hcases k f Hk).
  - apply payload_storable_spec. intros k f Hk. apply (Hcases k f Hk).
Qed.

(** The run of [updateUser] on such a request, when the document
    exists. *)
Lemma updateUser_success req w s d :
  key_rejected (update_key req) = false ->
  bad_request (update_id req) (update_updates req) = false ->
  update_id req = JStr s ->
  docs w !! ("users", inl s) = Some d ->
  flat_updates (update_updates req) = true ->
  truthy (get_prop (update_updates req) "username") = true ->
  truthy (get_prop (update_updates req) "name") = true ->
  updateUser req w =
    (Some (mkResponse 200
             (UserBody (Some (merge_fields (fs_clock (w_db w))
                                (updatePayload (update_updates req)) d)))),
     mkWorld (w_rng w)
       {| fs_docs := <[("users", inl s) :=
                        merge_fields (fs_clock (w_db w))
                          (updatePayload (update_updates req)) d]> (fs_docs (w_db w));
          fs_calls := fs_calls (w_db w) ++
                        [DocUpdate (mkRef "users" (inl s))
                           (updatePayload (update_updates req))];
          fs_clock := S (fs_clock (w_db w));
          fs_nextAuto := fs_nextAuto (w_db w) |}).
Proof.
  intros K B Hid Hd Hflat Hu Hn. unfold docs in Hd.
  destruct (updatePayload_flat _ Hflat Hu Hn) as [Hplain Hstor].
  unfold updateUser, try_catch, updateBody.
  rewrite K, B, Hid. unfold doc_of, doc.
  assert (Hs : String.eqb s "" = false).
  { unfold bad_request in B. rewrite Hid in B. simpl in B.
    destruct (String.eqb s ""); [discriminate | reflexivity]. }
  rewrite Hs. unfold bind, ret, doc_update, doc_get, ref_path.
  cbn [ref_collection ref_key w_db w_rng fs_docs fs_clock].
  rewrite Hstor, (update_paths_plain _ Hplain). cbn [negb].
  rewrite conflicting_singletons by apply NoDup_fst_map_to_list.
  rewrite Hd. cbn [ref_collection ref_key w_db w_rng fs_docs fs_clock].
  rewrite lookup_insert_eq, (apply_update_flat _ _ _ Hplain). reflexivity.
Qed.

(** X11: with both [username] and [name] given and flat updates,
    sending the same update twice gives the same document as sending it
    once, but for [updatedAt], which is stamped anew; both requests are
    answered 200. *)
Theorem update_twice req w s d :
  key_rejected (update_key req) = false ->
  bad_request (update_id req) (update_updates req) = false ->
  update_id req = JStr s ->
  docs w !! ("users", inl s) = Some d ->
  flat_updates (update_updates req) = true ->
  truthy (get_prop (update_updates req) "username") = true ->
  truthy (get_prop (update_updates req) "name") = true ->
  exists w1 d1 w2 d2,
    updateUser req w = (Some (mkResponse 200 (UserBody (Some d1))), w1) /\
    updateUser req w1 = (Some (mkResponse 200 (UserBody (Some d2))), w2) /\
    docs w2 !! ("users", inl s) = Some d2 /\
    (forall k, k <> "updatedAt" -> d2 !! k = d1 !! k) /\
    d1 !! "updatedAt" = Some (STimestamp (fs_clock (w_db w))) /\
    d2 !! "updatedAt" = Some (STimestamp (S (fs_clock (w_db w)))) /\
    (forall p, p <> ("users", inl s) -> docs w2 !! p = docs w !! p).
Proof.
  intros K B Hid Hd Hflat Hu Hn.
  pose proof (updateUser_success req w s d K B Hid Hd Hflat Hu Hn) as E1.
  set (t := fs_clock (w_db w)) in *.
  set (payload := updatePayload (update_updates req)) in *.
  set (d1 := merge_fields t payload d) in *.
  match type of E1 with _ = (_, ?x) => set (w1 := x) in * end.
  assert (Hd1 : docs w1 !! ("users", inl s) = Some d1)
    by (unfold w1, docs; simpl; apply lookup_insert_eq).
  pose proof (updateUser_success req w1 s d1 K B Hid Hd1 Hflat Hu Hn) as E2.
  fold payload in E2.
  assert (Ht1 : fs_clock (w_db w1) = S t) by reflexivity. rewrite Ht1 in E2.
  set (d2 := merge_fields (S t) payload d1) in *.
  destruct (updatePayload_lookup (update_updates req)) as (_ & _ & _ & P4).
  fold payload in P4.
  exists w1, d1. eexists. exists d2.
  split; [exact E1 |]. split; [exact E2 |].
  unfold docs. simpl.
  split; [apply lookup_insert_eq |]. split.
  { intros k Hk. unfold d2. rewrite merge_lookup.
    destruct (payload !! k) as [f | ] eqn:Ef; [ | reflexivity].
    unfold d1. rewrite merge_lookup, Ef.
    destruct f as [v | ]; [reflexivity |].
    destruct (updatePayload_plain _ _ _ Hk Ef) as (v & Hv). discriminate. }
  split; [unfold d1; rewrite merge_lookup, P4; reflexivity |].
  split; [unfold d2; rewrite merge_lookup, P4; reflexivity |].
  intros p Hp. rewrite lookup_insert_ne by congruence.
  unfold w1. simpl. apply lookup_insert_ne. congruence.
Qed.

(** X15: with both [username] and [name] given, flat updates and an
    existing document, the update is applied as a user of the endpoint
    expects: the answer is 200 with the document as stored, the gateway
    receives one update, every field of the mapping is stored as given,
    the two lowercase fields hold the lowercase of the names, [updatedAt]
    holds the server's time and every other field keeps its value. *)
Theorem update_with_both_names req w s d :
  key_rejected (update_key req) = false ->
  bad_request (update_id req) (update_updates req) = false ->
  update_id req = JStr s ->
  docs w !! ("users", inl s) = Some d ->
  flat_updates (update_updates req) = true ->
  truthy (get_prop (update_updates req) "username") = true ->
  truthy (get_prop (update_updates req) "name") = true ->
  let updates := update_updates req in
  exists w' d',
    updateUser req w = (Some (mkResponse 200 (UserBody (Some d'))), w') /\
    docs w' = <[("users", inl s) := d']> (docs w) /\
    calls w' = calls w ++ [DocUpdate (mkRef "users" (inl s)) (updatePayload updates)] /\
    (forall k, k <> "usernameLowercase" -> k <> "nameLowercase" -> k <> "updatedAt" ->
               d' !! k = match spread updates !! k with
                         | Some v => Some (SPlain v)
                         | None => d !! k
                         end) /\
    d' !! "usernameLowercase" =
      Some (SPlain (JStr (toLowerCase (ToString (get_prop updates "username"))))) /\
    d' !! "nameLowercase" =
      Some (SPlain (JStr (toLowerCase (ToString (get_prop updates "name"))))) /\
    d' !! "updatedAt" = Some (STimestamp (fs_clock (w_db w))).
Proof.
  intros K B Hid Hd Hflat Hu Hn. cbv zeta.
  pose proof (updateUser_success req w s d K B Hid Hd Hflat Hu Hn) as E.
  destruct (updatePayload_lookup (update_updates req)) as (P1 & P2 & P3 & P4).
  eexists. eexists. split; [exact E |].
  split; [reflexivity |]. split; [reflexivity |].
  repeat split.
  - intros k H1 H2 H3. rewrite merge_lookup, P1 by assumption.
    destruct (spread (update_updates req) !! k); reflexivity.
  - rewrite merge_lookup, P2. unfold lowered. rewrite Hu. reflexivity.
  - rewrite merge_lookup, P3. unfold lowered. rewrite Hn. reflexivity.
  - rewrite merge_lookup, P4. reflexivity.
Qed.


(** X12: an accepted, well-formed update of a document that does not
    exist is answered 500 with [ok: false]; no document is created and
    none is changed. *)
Theorem update_missing_document req w s :
  key_rejected (update_key req) = false ->
  bad_request (update_id req) (update_updates req) = false ->
  update_id req = JStr s ->
  docs w !! ("users", inl s) = None ->
  exists r w',
    updateUser req w = (Some r, w') /\
    status r = 500 /\
    body_ok (body r) = false /\
    docs w' = docs w.
Proof.
  intros K B Hid Hd.
  unfold updateUser, try_catch, updateBody. rewrite K, B, Hid. unfold doc_of, doc.
  assert (Hs : String.eqb s "" = false).
  { unfold bad_request in B. rewrite Hid in B. simpl in B.
    destruct (String.eqb s ""); [discriminate | reflexivity]. }
  rewrite Hs. unfold bind at 1. unfold ret at 1. unfold bind at 1.
  destruct (doc_update_cases (mkRef "users" (inl s)) (updatePayload (update_updates req)) w)
    as [(e & E) | [(e & Hn & E) | (d & Hd' & E)]]; rewrite E.
  - eexists. eexists. split; [reflexivity |]. repeat split.
  - eexists. eexists. split; [reflexivity |]. repeat split.
  - unfold ref_path in Hd'. simpl in Hd'. congruence.
Qed.

(** *** An array as updates *)

Lemma pretty_N_go_digit y : forall t,
  (exists c rest, t = String c rest /\ is_digit c = true) ->
  exists c rest, pretty_N_go y t = String c rest /\ is_digit c = true.
Proof.
  induction (N.lt_wf_0 y) as [y _ IH]. intros t Ht.
  assert (Hy : (y = 0 \/ 0 < y)%N) by lia. destruct Hy as [-> | Hy].
  - rewrite pretty_N_go_0. exact Ht.
  - rewrite pretty_N_go_step by exact Hy. apply IH; [apply N.div_lt; lia |].
    eexists. eexists. split; [reflexivity |].
    unfold pretty_N_char. repeat case_match; reflexivity.
Qed.

(** The decimal rendering of an index starts with a digit. *)
Lemma nat_to_string_digit i :
  exists c rest, nat_to_string i = String c rest /\ is_digit c = true.
Proof.
  unfold nat_to_string, pretty, pretty_nat, pretty, pretty_N.
  destruct (decide (N.of_nat i = 0%N)) as [ | Hn]; [exists "0"%char, ""; auto |].
  rewrite pretty_N_go_step by lia. apply pretty_N_go_digit.
  eexists. eexists. split; [reflexivity |].
  unfold pretty_N_char. repeat case_match; reflexivity.
Qed.

(** An array has no property under a name that is not an index. *)
Lemma index_get_name k l :
  (forall i, k <> nat_to_string i) -> forall i, index_get k i l = JUndefined.
Proof.
  intros Hk. induction l as [ | x l IH]; intros i; simpl; [reflexivity |].
  destruct (String.eqb k (nat_to_string i)) eqn:E; [ | apply IH].
  apply String.eqb_eq in E. destruct (Hk i E).
Qed.

(** X14: the validation does not tell an array from an object, but an
    array has neither a [username] nor a [name]: with an accepted key
    and a truthy id, updates given as an array are not answered 400;
    the object built from them holds [undefined], the client refuses
    it, and the answer is 500 with [ok: false], the world left as it
    was. *)
Theorem update_array_refused_by_client req w l :
  key_rejected (update_key req) = false ->
  truthy (update_id req) = true ->
  update_updates req = JArr l ->
  bad_request (update_id req) (update_updates req) = false /\
  exists r,
    updateUser req w = (Some r, w) /\
    status r = 500 /\
    body_ok (body r) = false.
Proof.
  intros K Hid Hup.
  assert (B : bad_request (update_id req) (update_updates req) = false).
  { unfold bad_request. rewrite Hid, Hup. reflexivity. }
  split; [exact B |].
  apply (updateUser_refused req w K B). apply updatePayload_refused. left.
  apply lowered_falsy. rewrite Hup. simpl.
  rewrite index_get_name; [reflexivity |].
  intros i He. destruct (nat_to_string_digit i) as (c & rest & Hs & Hc).
  rewrite Hs in He. inversion He; subst c. discriminate.
Qed.


End Functions.

(** ** The sample runtime satisfies the assumptions *)

Lemma sample_toLowerCase_ascii s :
  string_forallb is_ascii s = true -> Sample.toLowerCase s = string_map ascii_lower s.
Proof. intros _. reflexivity. Qed.


(** ** Worked examples *)

Local Abbreviation sample_seedData :=
  (seedData Sample.StringToNumber Sample.NumberToString Sample.toLowerCase Sample.G
     Sample.fakeString Sample.numberInt Sample.pastYear Sample.nowISO Sample.SEED_KEY).

Local Abbreviation sample_handle :=
  (handle Sample.StringToNumber Sample.NumberToString Sample.toLowerCase Sample.G
     Sample.fakeString Sample.numberInt Sample.pastYear Sample.nowISO Sample.SEED_KEY).

Local Abbreviation sample_updateUser :=
  (updateUser Sample.NumberToString Sample.toLowerCase Sample.G Sample.SEED_KEY).

Local Abbreviation sample_count f :=
  (f Sample.StringToNumber Sample.NumberToString).

(** The request for two users and nothing else is answered 200, on the
    empty database and on the one that holds documents already. *)
Lemma sample_users_answer :
  fst (sample_seedData 501%nat Sample.usersOnly Sample.world0) =
    Some (mkResponse 200 (SeedBody "Seeding completed" 2 0 0 0)) /\
  fst (sample_seedData 501%nat Sample.usersOnly Sample.world2) =
    Some (mkResponse 200 (SeedBody "Seeding completed" 2 0 0 0)).
Proof. split; vm_compute; reflexivity. Qed.

Lemma sample_users_status w r w' :
  w = Sample.world0 \/ w = Sample.world2 ->
  sample_seedData 501%nat Sample.usersOnly w = (Some r, w') ->
  status r = 200.
Proof.
  intros Hw E. destruct sample_users_answer as [H0 H2].
  destruct Hw as [-> | ->]; [rewrite E in H0; simpl in H0; inversion H0
                           | rewrite E in H2; simpl in H2; inversion H2]; reflexivity.
Qed.

Lemma unauthorized_request_rejected_witness :
  exists r,
    sample_handle UpdateUser 501%nat Sample.noKey Sample.world1 = (Some r, Sample.world1) /\
    status r = 401 /\
    body_ok (body r) = false /\
    calls Sample.G (snd (sample_handle UpdateUser 501%nat Sample.noKey Sample.world1))
      = calls Sample.G Sample.world1.
Proof.
  apply (unauthorized_request_rejected
           Sample.StringToNumber Sample.NumberToString Sample.toLowerCase Sample.G
           Sample.fakeString Sample.numberInt Sample.pastYear Sample.nowISO Sample.SEED_KEY
           UpdateUser 501%nat Sample.noKey Sample.world1).
  left. reflexivity.
Defined.




Lemma seeded_user_lowercase_fields_witness :
  exists r w',
    sample_seedData 501%nat Sample.usersOnly Sample.world0 = (Some r, w') /\
    status r = 200 /\
    exists bs,
      calls Sample.G w' = calls Sample.G Sample.world0 ++ map BatchCommit bs /\
      forall op,
        In op (concat bs) -> ref_collection (op_ref op) = "users" ->
        exists username name,
          op_data op !! "username" = Some (FStr username) /\
          op_data op !! "usernameLowercase" = Some (FStr (Sample.toLowerCase username)) /\
          op_data op !! "name" = Some (FStr name) /\
          op_data op !! "nameLowercase" = Some (FStr (Sample.toLowerCase name)).
Proof.
  destruct (seeded_user_lowercase_fields
              Sample.StringToNumber Sample.NumberToString Sample.toLowerCase Sample.G
              Sample.fakeString Sample.numberInt Sample.pastYear Sample.nowISO
              Sample.SEED_KEY 501%nat Sample.usersOnly Sample.world0 ltac:(lia))
    as (_ & r & w' & E & H).
  exists r, w'. split; [exact E |].
  pose proof (sample_users_status _ r w' (or_introl eq_refl) E) as Hs.
  split; [exact Hs | exact (H Hs)].
Defined.


Lemma seeded_user_payload_fields_witness :
  exists r w',
    sample_seedData 501%nat Sample.usersOnly Sample.world0 = (Some r, w') /\
    status r = 200 /\
    exists bs,
      calls Sample.G w' = calls Sample.G Sample.world0 ++ map BatchCommit bs /\
      forall op,
        In op (concat bs) -> ref_collection (op_ref op) = "users" ->
        op_data op !! "createdAt" = Some FServerTimestamp /\
        op_data op !! "updatedAt" = None.
Proof.
  destruct (seeded_user_payload_fields
              Sample.StringToNumber Sample.NumberToString Sample.toLowerCase Sample.G
              Sample.fakeString Sample.numberInt Sample.pastYear Sample.nowISO
              Sample.SEED_KEY 501%nat Sample.usersOnly Sample.world0 ltac:(lia))
    as (_ & r & w' & E & H).
  exists r, w'. split; [exact E |].
  pose proof (sample_users_status _ r w' (or_introl eq_refl) E) as Hs. split; [exact Hs |].
  destruct (H Hs) as (bs & Hc & Hops). exists bs. split; [exact Hc |].
  intros op Hin Hu. destruct (Hops op Hin Hu) as (_ & _ & _ & _ & _ & H1 & H2). auto.
Defined.

Lemma generated_username_normalised_witness :
  exists u w',
    makeFakeUser Sample.toLowerCase Sample.G Sample.fakeString Sample.world0 = (Ok u, w') /\
    string_forallb is_lower_word_char (u_username u) = true /\
    u_username u = u_usernameLowercase u.
Proof.
  apply (generated_username_normalised
           Sample.toLowerCase sample_toLowerCase_ascii Sample.G Sample.fakeString
           Sample.world0).
Defined.

(** [updateUser] reads the key from the body before the query: with a
    valid key in the query and another in the body it compares the
    body's, where the order query, header, body would compare the
    query's. *)
Lemma update_key_prefers_body :
  update_key Sample.twoKeys = JStr "wrong" /\
  spec_key Sample.twoKeys = JStr "dev-seed-key" /\
  update_key Sample.twoKeys <> spec_key Sample.twoKeys.
Proof.
  split; [reflexivity |]. split; [reflexivity |]. vm_compute. discriminate.
Qed.

(** The update [{ username: "Foo" }] of the existing user u1 is answered
    500 and the world is left as it was: the user name stored is still
    "Bar". *)
Lemma update_applies_mapping_witness :
  exists r,
    sample_updateUser (Sample.updateRequest Sample.setFoo) Sample.world1 =
      (Some r, Sample.world1) /\
    status r = 500 /\
    body_ok (body r) = false /\
    stored_field Sample.world1 "u1" "username" = Some (SPlain (JStr "Bar")).
Proof.
  destruct (update_applies_mapping
              Sample.NumberToString Sample.toLowerCase Sample.G Sample.SEED_KEY
              (Sample.updateRequest Sample.setFoo) Sample.world1
              eq_refl eq_refl (or_intror eq_refl))
    as (_ & _ & _ & _ & _ & r & E & Hs & Hb & _).
  exists r. split; [exact E |]. split; [exact Hs |]. split; [exact Hb | reflexivity].
Defined.

Lemma update_bad_request_no_write_witness :
  exists r,
    sample_updateUser Sample.missingId Sample.world1 = (Some r, Sample.world1) /\
    body_ok (body r) = false /\
    calls Sample.G (snd (sample_updateUser Sample.missingId Sample.world1))
      = calls Sample.G Sample.world1 /\
    status r = 400.
Proof.
  destruct (update_bad_request_no_write
              Sample.NumberToString Sample.toLowerCase Sample.G
              Sample.SEED_KEY Sample.missingId Sample.world1 (or_introl eq_refl))
    as (r & E & Hb & Hc & Hs).
  exists r. repeat split; try assumption. apply Hs. reflexivity.
Defined.

(** ** Worked examples for the further properties *)

Lemma exact_key_is_accepted_witness :
  exists r w',
    sample_handle SeedData 501%nat Sample.seedRequest Sample.world0 = (Some r, w') /\
    (status r = 200 \/ status r = 400 \/ status r = 500).
Proof.
  destruct (exact_key_is_accepted
              Sample.StringToNumber Sample.NumberToString Sample.toLowerCase Sample.G
              Sample.fakeString Sample.numberInt Sample.pastYear Sample.nowISO
              Sample.SEED_KEY SeedData 501%nat Sample.seedRequest Sample.world0
              ltac:(lia) ltac:(discriminate) eq_refl) as [_ H].
  exact H.
Defined.

Lemma endpoints_agree_on_key_witness :
  seed_key Sample.headerKey = update_key Sample.headerKey.
Proof.
  apply (endpoints_agree_on_key Sample.headerKey). left. reflexivity.
Defined.


Lemma seed_without_albums_fails_witness :
  exists r w',
    sample_seedData 501%nat Sample.emptyPool Sample.world0 = (Some r, w') /\
    status r = 500 /\
    body_ok (body r) = false /\
    w_db w' = w_db Sample.world0.
Proof.
  apply (seed_without_albums_fails
           Sample.StringToNumber Sample.NumberToString Sample.toLowerCase Sample.G
           Sample.fakeString Sample.numberInt Sample.pastYear Sample.nowISO
           Sample.SEED_KEY 501%nat Sample.emptyPool Sample.world0).
  - lia.
  - reflexivity.
  - left. vm_compute. reflexivity.
  - vm_compute. lia.
  - vm_compute. lia.
Defined.


(** The request for two users does return, on both sample databases. *)
Lemma sample_users_returns w :
  w = Sample.world0 \/ w = Sample.world2 ->
  exists r w',
    sample_seedData 501%nat Sample.usersOnly w = (Some r, w') /\
    status r = 200.
Proof.
  intros Hw.
  destruct (seedData_run
              Sample.StringToNumber Sample.NumberToString Sample.toLowerCase Sample.G
              Sample.fakeString Sample.numberInt Sample.pastYear Sample.nowISO
              Sample.SEED_KEY 501%nat Sample.usersOnly w ltac:(lia))
    as (r & w' & E & _).
  exists r, w'. split; [exact E | exact (sample_users_status w r w' Hw E)].
Defined.

Lemma seeded_write_keys_witness :
  exists r w',
    sample_seedData 501%nat Sample.usersOnly Sample.world0 = (Some r, w') /\
    status r = 200 /\
    exists bs,
      calls Sample.G w' = calls Sample.G Sample.world0 ++ map BatchCommit bs /\
      forall op,
        In op (concat bs) ->
        exists id, op_ref op = mkRef "users" (inl id) /\
                   op_data op !! "id" = Some (FStr id).
Proof.
  destruct (sample_users_returns Sample.world0 (or_introl eq_refl)) as (r & w' & E & Hs).
  exists r, w'. split; [exact E |]. split; [exact Hs |].
  exact (seeded_write_keys
           Sample.StringToNumber Sample.NumberToString Sample.toLowerCase Sample.G
           Sample.fakeString Sample.numberInt Sample.pastYear Sample.nowISO
           Sample.SEED_KEY 501%nat Sample.usersOnly Sample.world0 r w'
           ltac:(lia) E Hs).
Defined.

(** Seeding two users into the database that holds the user u1 and a
    playlist: both documents are still there, the user with all its
    fields and the playlist exactly as it was, and the documents
    written exist. *)
Lemma seed_preserves_store_witness :
  exists r w',
    sample_seedData 501%nat Sample.usersOnly Sample.world2 = (Some r, w') /\
    status r = 200 /\
    store_extends (docs Sample.G Sample.world2) (docs Sample.G w') /\
    (exists d', docs Sample.G w' !! ("users", inl "u1") = Some d' /\
                doc_extends Sample.bar d') /\
    docs Sample.G w' !! ("playlists", inl "p1") = Some Sample.playlist /\
    exists bs,
      calls Sample.G w' = calls Sample.G Sample.world2 ++ map BatchCommit bs /\
      forall op, In op (concat bs) -> is_Some (docs Sample.G w' !! ref_path (op_ref op)).
Proof.
  destruct (sample_users_returns Sample.world2 (or_intror eq_refl)) as (r & w' & E & Hs).
  exists r, w'. split; [exact E |]. split; [exact Hs |].
  destruct (seed_preserves_store
              Sample.StringToNumber Sample.NumberToString Sample.toLowerCase Sample.G
              Sample.fakeString Sample.numberInt Sample.pastYear Sample.nowISO
              Sample.SEED_KEY 501%nat Sample.usersOnly Sample.world2 r w'
              ltac:(lia) E Hs) as (H1 & H2 & H3).
  split; [exact H1 |]. split; [apply (H1 ("users", inl "u1") Sample.bar); reflexivity |].
  split; [ | exact H3].
  rewrite H2; [reflexivity |]. unfold seed_collections. simpl.
  intros [H | [H | [H | [H | []]]]]; discriminate.
Defined.

Lemma update_twice_witness :
  exists w1 d1 w2 d2,
    sample_updateUser (Sample.updateRequest Sample.setBoth) Sample.world1 =
      (Some (mkResponse 200 (UserBody (Some d1))), w1) /\
    sample_updateUser (Sample.updateRequest Sample.setBoth) w1 =
      (Some (mkResponse 200 (UserBody (Some d2))), w2) /\
    (forall k, k <> "updatedAt" -> d2 !! k = d1 !! k) /\
    d1 !! "updatedAt" = Some (STimestamp 7) /\
    d2 !! "updatedAt" = Some (STimestamp 8).
Proof.
  destruct (update_twice
              Sample.NumberToString Sample.toLowerCase Sample.G Sample.SEED_KEY
              (Sample.updateRequest Sample.setBoth) Sample.world1 "u1" Sample.bar
              eq_refl eq_refl eq_refl eq_refl eq_refl eq_refl eq_refl)
    as (w1 & d1 & w2 & d2 & E1 & E2 & _ & Hk & H1 & H2 & _).
  exists w1, d1, w2, d2. repeat split; assumption.
Defined.

Lemma update_with_both_names_witness :
  exists w' d',
    sample_updateUser (Sample.updateRequest Sample.setBoth) Sample.world1 =
      (Some (mkResponse 200 (UserBody (Some d'))), w') /\
    docs Sample.G w' !! ("users", inl "u1") = Some d' /\
    d' !! "id" = Some (SPlain (JStr "u1")) /\
    d' !! "username" = Some (SPlain (JStr "Foo")) /\
    d' !! "usernameLowercase" = Some (SPlain (JStr "foo")) /\
    d' !! "name" = Some (SPlain (JStr "Foo F")) /\
    d' !! "nameLowercase" = Some (SPlain (JStr "foo f")) /\
    d' !! "updatedAt" = Some (STimestamp 7).
Proof.
  destruct (update_with_both_names
              Sample.NumberToString Sample.toLowerCase Sample.G Sample.SEED_KEY
              (Sample.updateRequest Sample.setBoth) Sample.world1 "u1" Sample.bar
              eq_refl eq_refl eq_refl eq_refl eq_refl eq_refl eq_refl)
    as (w' & d' & E & Hd & _ & Hk & Hu & Hn & Ht).
  exists w', d'. split; [exact E |].
  split; [rewrite Hd; apply lookup_insert_eq |].
  split; [rewrite Hk by discriminate; reflexivity |].
  split; [rewrite Hk by discriminate; reflexivity |].
  split; [exact Hu |].
  split; [rewrite Hk by discriminate; reflexivity |].
  split; [exact Hn | exact Ht].
Defined.

Lemma update_missing_document_witness :
  exists r w',
    sample_updateUser (Sample.updateRequest Sample.setBoth) Sample.world0 = (Some r, w') /\
    status r = 500 /\
    body_ok (body r) = false /\
    docs Sample.G w' = docs Sample.G Sample.world0.
Proof.
  apply (update_missing_document
           Sample.NumberToString Sample.toLowerCase Sample.G Sample.SEED_KEY
           (Sample.updateRequest Sample.setBoth) Sample.world0 "u1");
    reflexivity.
Defined.

Lemma update_array_refused_by_client_witness :
  bad_request (update_id (Sample.updateRequest Sample.setArray))
    (update_updates (Sample.updateRequest Sample.setArray)) = false /\
  exists r,
    sample_updateUser (Sample.updateRequest Sample.setArray) Sample.world1 =
      (Some r, Sample.world1) /\
    status r = 500 /\
    body_ok (body r) = false.
Proof.
  apply (update_array_refused_by_client
           Sample.NumberToString Sample.toLowerCase Sample.G Sample.SEED_KEY
           (Sample.updateRequest Sample.setArray) Sample.world1
           [JStr "a"; JStr "b"]);
    reflexivity.
Defined.
